(** * Case management backend: authorization, state machine, services

    A shallow embedding of the Python sources under [backend/app]
    ([models.py], [rbac.py], [authorization.py], [schemas.py],
    [services/simplified_case_service.py], [services/case_service.py])
    together with the properties the specification states about them.

    Python classes become modules ([User], [Case], [RBACManager], ...),
    database tables become finite maps from primary key to row, and a
    function that reads or writes the database takes the tables and
    returns the response together with the tables it leaves behind. *)

From stdpp Require Import gmap strings list fin_maps sorting pretty.

Local Open Scope Z_scope.

(** ** models.py *)

(** A [datetime] value as the schema hands it over: its wall-clock reading
    (seconds since the epoch of its own zone) and its UTC offset, [None]
    for a naive value. *)
Module datetime.
Record t := mk { wall : Z; utcoffset : option Z }.

#[global] Instance eq_dec : EqDecision t.
Proof. solve_decision. Defined.

(** [value.replace(tzinfo=utc)] for a naive value, [astimezone(utc)]
    otherwise: the instant the value denotes. *)
Definition to_utc (d : t) : Z :=
  match utcoffset d with
  | None => wall d
  | Some off => wall d - off
  end.
End datetime.

Module User.
Record t := mk {
  id : Z;
  username : string;
  email : string;
  role : string;
  is_active : bool
}.

#[global] Instance eq_dec : EqDecision t.
Proof. solve_decision. Defined.

Definition is_admin (self : t) : bool := bool_decide (role self = "admin").

Definition set_is_active (b : bool) (self : t) : t :=
  mk (id self) (username self) (email self) (role self) b.
End User.

(** A row of the [cases] table. The primary key [id] is the key of the
    table, not a field of the row. *)
Module Case.
Record t := mk {
  title : string;
  description : option string;
  status : string;
  priority : string;
  due_date : option datetime.t;
  is_active : bool;
  created_at : Z;
  updated_at : Z;
  created_by : Z;
  assigned_to : option Z
}.

#[global] Instance eq_dec : EqDecision t.
Proof. solve_decision. Defined.

Definition VALID_STATUSES : list string := ["open"; "in_progress"; "closed"].

Definition STATUS_TRANSITIONS : list (string * list string) :=
  [ ("open", ["in_progress"]);
    ("in_progress", ["closed"]);
    ("closed", []) ].

(** [d.get(key, [])] on a dict literal whose values are lists. *)
Fixpoint get {A} (d : list (string * list A)) (key : string) : list A :=
  match d with
  | [] => []
  | (k, v) :: d' => if decide (k = key) then v else get d' key
  end.

Definition can_transition_to (self : t) (new_status : string) : bool :=
  if negb (bool_decide (new_status ∈ VALID_STATUSES)) then false
  else bool_decide (new_status ∈ get STATUS_TRANSITIONS (status self)).

Definition set_status (s : string) (self : t) : t :=
  mk (title self) (description self) s (priority self) (due_date self)
     (is_active self) (created_at self) (updated_at self) (created_by self)
     (assigned_to self).

Definition set_title (x : string) (self : t) : t :=
  mk x (description self) (status self) (priority self) (due_date self)
     (is_active self) (created_at self) (updated_at self) (created_by self)
     (assigned_to self).

Definition set_description (x : option string) (self : t) : t :=
  mk (title self) x (status self) (priority self) (due_date self)
     (is_active self) (created_at self) (updated_at self) (created_by self)
     (assigned_to self).

Definition set_priority (x : string) (self : t) : t :=
  mk (title self) (description self) (status self) x (due_date self)
     (is_active self) (created_at self) (updated_at self) (created_by self)
     (assigned_to self).

Definition set_due_date (x : option datetime.t) (self : t) : t :=
  mk (title self) (description self) (status self) (priority self) x
     (is_active self) (created_at self) (updated_at self) (created_by self)
     (assigned_to self).

Definition set_is_active (x : bool) (self : t) : t :=
  mk (title self) (description self) (status self) (priority self)
     (due_date self) x (created_at self) (updated_at self) (created_by self)
     (assigned_to self).

Definition set_updated_at (x : Z) (self : t) : t :=
  mk (title self) (description self) (status self) (priority self)
     (due_date self) (is_active self) (created_at self) x (created_by self)
     (assigned_to self).

Definition set_assigned_to (x : option Z) (self : t) : t :=
  mk (title self) (description self) (status self) (priority self)
     (due_date self) (is_active self) (created_at self) (updated_at self)
     (created_by self) x.

(** [update_status] returns the flag and the object it leaves. *)
Definition update_status (self : t) (new_status : string) : bool * t :=
  if can_transition_to self new_status then (true, set_status new_status self)
  else (false, self).

Definition soft_delete (self : t) : t := set_is_active false self.
End Case.

Module AuditLog.
Record t := mk {
  user_id : option Z;
  action : string;
  resource_type : string;
  resource_id : option Z;
  result : string;
  details : string;
  ip_address : option string;
  user_agent : option string;
  timestamp : Z
}.
End AuditLog.

(** The committed contents of the database: [users] and [cases] by primary
    key, [audit_logs] in insertion order. *)
Record Tables := mkTables {
  users : gmap Z User.t;
  cases : gmap Z Case.t;
  audit_logs : list AuditLog.t
}.

Definition set_cases (m : gmap Z Case.t) (db : Tables) : Tables :=
  mkTables (users db) m (audit_logs db).

Definition set_audit_logs (l : list AuditLog.t) (db : Tables) : Tables :=
  mkTables (users db) (cases db) l.

(** [Case.query.filter_by(id=case_id, is_active=True).first()]. *)
Definition active_case (db : Tables) (case_id : Z) : option Case.t :=
  match cases db !! case_id with
  | Some c => if Case.is_active c then Some c else None
  | None => None
  end.

(** The key an autoincrement primary key gives the next inserted row. *)
Definition next_id {A} (m : gmap Z A) : Z :=
  1 + foldr Z.max 0 (map_to_list m).*1.

(** What [Case.to_dict] returns; [creator] and [assignee] are the
    usernames reached through the two relationships. *)
Record CaseDict := mkCaseDict {
  d_id : Z;
  d_title : string;
  d_description : option string;
  d_status : string;
  d_priority : string;
  d_due_date : option datetime.t;
  d_is_active : bool;
  d_created_at : Z;
  d_updated_at : Z;
  d_created_by : Z;
  d_assigned_to : option Z;
  d_creator : option string;
  d_assignee : option string
}.

Definition Case_to_dict (db : Tables) (id : Z) (self : Case.t) : CaseDict :=
  mkCaseDict id (Case.title self) (Case.description self) (Case.status self)
    (Case.priority self) (Case.due_date self) (Case.is_active self)
    (Case.created_at self) (Case.updated_at self) (Case.created_by self)
    (Case.assigned_to self)
    (User.username <$> users db !! Case.created_by self)
    (a ← Case.assigned_to self; User.username <$> users db !! a).

(** ** rbac.py: permissions, roles and the static table *)

Inductive Permission :=
| VIEW_ALL_CASES | VIEW_OWN_CASES | VIEW_ASSIGNED_CASES | CREATE_CASE
| EDIT_OWN_CASES | EDIT_ALL_CASES | DELETE_OWN_CASES | DELETE_ALL_CASES
| ASSIGN_CASES | UPDATE_STATUS_OWN | UPDATE_STATUS_ASSIGNED
| UPDATE_STATUS_ALL | MANAGE_USERS | VIEW_AUDIT_LOGS.

#[global] Instance Permission_eq_dec : EqDecision Permission.
Proof. solve_decision. Defined.

Definition Permission_value (p : Permission) : string :=
  match p with
  | VIEW_ALL_CASES => "view_all_cases"
  | VIEW_OWN_CASES => "view_own_cases"
  | VIEW_ASSIGNED_CASES => "view_assigned_cases"
  | CREATE_CASE => "create_case"
  | EDIT_OWN_CASES => "edit_own_cases"
  | EDIT_ALL_CASES => "edit_all_cases"
  | DELETE_OWN_CASES => "delete_own_cases"
  | DELETE_ALL_CASES => "delete_all_cases"
  | ASSIGN_CASES => "assign_cases"
  | UPDATE_STATUS_OWN => "update_status_own"
  | UPDATE_STATUS_ASSIGNED => "update_status_assigned"
  | UPDATE_STATUS_ALL => "update_status_all"
  | MANAGE_USERS => "manage_users"
  | VIEW_AUDIT_LOGS => "view_audit_logs"
  end.

Inductive Role := ADMIN | USER | MANAGER | VIEWER.

#[global] Instance Role_eq_dec : EqDecision Role.
Proof. solve_decision. Defined.

Definition Role_value (r : Role) : string :=
  match r with
  | ADMIN => "admin"
  | USER => "user"
  | MANAGER => "manager"
  | VIEWER => "viewer"
  end.

(** [Role(value)]: the member with that value, [None] for the [ValueError]
    raised at any other string. *)
Definition Role_of_value (s : string) : option Role :=
  if decide (s = "admin") then Some ADMIN
  else if decide (s = "user") then Some USER
  else if decide (s = "manager") then Some MANAGER
  else if decide (s = "viewer") then Some VIEWER
  else None.

Definition ROLE_PERMISSIONS : list (Role * list Permission) :=
  [ (ADMIN,
      [ VIEW_ALL_CASES; CREATE_CASE; EDIT_ALL_CASES; DELETE_ALL_CASES;
        ASSIGN_CASES; UPDATE_STATUS_ALL; MANAGE_USERS; VIEW_AUDIT_LOGS ]);
    (USER,
      [ VIEW_OWN_CASES; VIEW_ASSIGNED_CASES; CREATE_CASE; EDIT_OWN_CASES;
        DELETE_OWN_CASES; UPDATE_STATUS_OWN; UPDATE_STATUS_ASSIGNED ]);
    (MANAGER,
      [ VIEW_ALL_CASES; CREATE_CASE; EDIT_ALL_CASES; ASSIGN_CASES;
        UPDATE_STATUS_ALL ]);
    (VIEWER, [ VIEW_OWN_CASES; VIEW_ASSIGNED_CASES ]) ].

(** [ROLE_PERMISSIONS.get(role, [])]. *)
Fixpoint ROLE_PERMISSIONS_get (d : list (Role * list Permission)) (r : Role)
  : list Permission :=
  match d with
  | [] => []
  | (k, v) :: d' => if decide (k = r) then v else ROLE_PERMISSIONS_get d' r
  end.

(** The optional [resource] argument of [has_permission]: a [Case] row or
    an object of another class. *)
Inductive Resource :=
| ResCase (c : Case.t)
| ResOther.

Module RBACManager.

Definition _check_case_permission (user : User.t) (permission : Permission)
    (case : Case.t) : bool :=
  let is_owner := bool_decide (Case.created_by case = User.id user) in
  let is_assignee := bool_decide (Case.assigned_to case = Some (User.id user)) in
  if bool_decide (permission ∈ [EDIT_OWN_CASES; DELETE_OWN_CASES]) then is_owner
  else if decide (permission = UPDATE_STATUS_OWN) then is_owner
  else if decide (permission = UPDATE_STATUS_ASSIGNED) then is_assignee
  else if bool_decide (permission ∈ [VIEW_OWN_CASES]) then is_owner
  else if decide (permission = VIEW_ASSIGNED_CASES) then is_assignee
  else true.

Definition has_permission (user : option User.t) (permission : Permission)
    (resource : option Resource) : bool :=
  match user with
  | None => false
  | Some u =>
    if negb (User.is_active u) then false
    else
      match Role_of_value (User.role u) with
      | None => false
      | Some user_role =>
        let user_permissions := ROLE_PERMISSIONS_get ROLE_PERMISSIONS user_role in
        if negb (bool_decide (permission ∈ user_permissions)) then false
        else
          match resource with
          | Some (ResCase c) => _check_case_permission u permission c
          | _ => true
          end
      end
  end.

Definition get_user_permissions (user : option User.t) : list Permission :=
  match user with
  | None => []
  | Some u =>
    match Role_of_value (User.role u) with
    | Some user_role => ROLE_PERMISSIONS_get ROLE_PERMISSIONS user_role
    | None => []
    end
  end.

Definition can_view_case (user : User.t) (case : Case.t) : bool :=
  if has_permission (Some user) VIEW_ALL_CASES None then true
  else if has_permission (Some user) VIEW_OWN_CASES None
          && bool_decide (Case.created_by case = User.id user) then true
  else if has_permission (Some user) VIEW_ASSIGNED_CASES None
          && bool_decide (Case.assigned_to case = Some (User.id user)) then true
  else false.

Definition can_edit_case (user : User.t) (case : Case.t) : bool :=
  if has_permission (Some user) EDIT_ALL_CASES None then true
  else if has_permission (Some user) EDIT_OWN_CASES None
          && bool_decide (Case.created_by case = User.id user) then true
  else false.

Definition can_delete_case (user : User.t) (case : Case.t) : bool :=
  if has_permission (Some user) DELETE_ALL_CASES None then true
  else if has_permission (Some user) DELETE_OWN_CASES None
          && bool_decide (Case.created_by case = User.id user) then true
  else false.

Definition can_update_case_status (user : User.t) (case : Case.t) : bool :=
  if has_permission (Some user) UPDATE_STATUS_ALL None then true
  else if has_permission (Some user) UPDATE_STATUS_OWN None
          && bool_decide (Case.created_by case = User.id user) then true
  else if has_permission (Some user) UPDATE_STATUS_ASSIGNED None
          && bool_decide (Case.assigned_to case = Some (User.id user)) then true
  else false.

End RBACManager.

(** ** authorization.py *)

Module authorization.

(** The second component of the pair [authorize_case_access] returns. *)
Inductive error_response := Unauthorized_access.

Definition authorize_case_access (case : option Case.t) (current_user : User.t)
    (action : string) : bool * option error_response :=
  if decide (User.role current_user = "admin") then (true, None)
  else if decide (action = "create") then (true, None)
  else
    match case with
    | None => (false, Some Unauthorized_access)
    | Some c =>
      let is_owner := bool_decide (Case.created_by c = User.id current_user) in
      let is_assigned := bool_decide (Case.assigned_to c = Some (User.id current_user)) in
      if decide (action = "read") then
        if negb (is_owner || is_assigned) then (false, Some Unauthorized_access)
        else (true, None)
      else
        if negb is_owner then (false, Some Unauthorized_access)
        else if decide (Case.status c = "closed") then (false, Some Unauthorized_access)
        else (true, None)
    end.

Definition can_modify_case (case : Case.t) (current_user : User.t) : bool :=
  if decide (User.role current_user = "admin") then true
  else bool_decide (Case.created_by case = User.id current_user)
       && negb (bool_decide (Case.status case = "closed")).

Definition can_delete_case (case : Case.t) (current_user : User.t) : bool :=
  if decide (User.role current_user = "admin") then true
  else bool_decide (Case.created_by case = User.id current_user)
       && negb (bool_decide (Case.status case = "closed")).

(** The rows [get_accessible_cases_query(current_user)] selects, each with
    its primary key. *)
Definition get_accessible_cases_query (current_user : User.t) (db : Tables)
  : list (Z * Case.t) :=
  let base_query := filter (λ r, Case.is_active r.2 = true) (map_to_list (cases db)) in
  if decide (User.role current_user = "admin") then base_query
  else
    filter (λ r, Case.created_by r.2 = User.id current_user
                 ∨ Case.assigned_to r.2 = Some (User.id current_user))
           base_query.

End authorization.

(** ** Library behaviour the services rely on

    Python's [int(str)], the ISO-8601 parser behind [fields.DateTime] and
    the database's [ILIKE] operator are library code; the services are
    stated for any such functions. *)
Class Library := {
  (** [int(s)], [None] for the [ValueError] *)
  int_of_str : string → option Z;
  (** the parser of [fields.DateTime], [None] for an invalid text *)
  from_iso_datetime : string → option datetime.t;
  (** [column.ilike(pattern)] on a value of the column *)
  ilike : string → string → bool
}.

(** ** schemas.py *)

(** A JSON value as the field deserializers see it. A non-integral number
    is represented by what [int()] makes of it ([None] for nan and the
    infinities); arrays and objects are rejected by every field type used
    here, so their contents are not kept. *)
Inductive json :=
| JNull
| JBool (b : bool)
| JInt (n : Z)
| JFloat (as_int : option Z)
| JStr (s : string)
| JComposite.

(** The request body handed to [Schema.load]: a JSON object, or any other
    (non-empty) JSON document. *)
Inductive payload :=
| Mapping (d : gmap string json)
| NotMapping.

Module schemas.

(** [ValidationError.messages]: field name and message. *)
Definition ValidationError := list (string * string).

(** The outcome of loading one field: the key is absent from the input
    and has no default, a value was produced, or the field was rejected. *)
Inductive loaded (A : Type) :=
| Absent
| Loaded (a : A)
| Rejected (msg : string).
Arguments Absent {A}.
Arguments Loaded {A} a.
Arguments Rejected {A} msg.

Definition field_errors {A} (name : string) (r : loaded A) : ValidationError :=
  match r with
  | Rejected msg => [(name, msg)]
  | _ => []
  end.

(** [Some None] for an absent key, [Some (Some a)] for a value, [None] for
    a rejected field. *)
Definition accepted {A} (r : loaded A) : option (option A) :=
  match r with
  | Absent => Some None
  | Loaded a => Some (Some a)
  | Rejected _ => None
  end.

Definition validator (A : Type) := A → option string.

Fixpoint run_validators {A} (vs : list (validator A)) (a : A) : option string :=
  match vs with
  | [] => None
  | v :: vs' =>
    match v a with
    | Some msg => Some msg
    | None => run_validators vs' a
    end
  end.

(** [validate.Length(min=lo, max=hi)]. *)
Definition Length (lo : nat) (hi : option nat) : validator string := λ s,
  let n := String.length s in
  if (n <? lo)%nat then Some "Shorter than minimum length."
  else match hi with
       | Some h => if (h <? n)%nat then Some "Longer than maximum length." else None
       | None => None
       end.

(** [validate.OneOf(choices)]. *)
Definition OneOf (choices : list string) : validator string := λ s,
  if bool_decide (s ∈ choices) then None else Some "Must be one of the choices.".

(** [fields.Str(validate=vs)] on the raw value of a present key. *)
Definition Str (vs : list (validator string)) (raw : json) : loaded string :=
  match raw with
  | JNull => Rejected "Field may not be null."
  | JStr s =>
    match run_validators vs s with
    | Some msg => Rejected msg
    | None => Loaded s
    end
  | _ => Rejected "Not a valid string."
  end.

Section fields.
Context `{Library}.

(** [fields.Int(allow_none=True)] on the raw value of a present key. *)
Definition Int_allow_none (raw : json) : loaded (option Z) :=
  match raw with
  | JNull => Loaded None
  | JBool _ => Rejected "Not a valid integer."
  | JInt n => Loaded (Some n)
  | JFloat (Some n) => Loaded (Some n)
  | JFloat None => Rejected "Not a valid integer."
  | JStr s =>
    match int_of_str s with
    | Some n => Loaded (Some n)
    | None => Rejected "Not a valid integer."
    end
  | JComposite => Rejected "Not a valid integer."
  end.

(** The [@validates('due_date')] hook of both case schemas. *)
Definition validate_due_date (now : Z) (value : option datetime.t) : option string :=
  match value with
  | None => None
  | Some v =>
    if datetime.to_utc v <=? now then Some "Due date must be in the future"
    else None
  end.

(** [fields.DateTime(allow_none=True)] followed by [validate_due_date]. *)
Definition DateTime_allow_none (now : Z) (raw : json) : loaded (option datetime.t) :=
  match raw with
  | JNull => Loaded None
  | JStr s =>
    match from_iso_datetime s with
    | Some v =>
      match validate_due_date now (Some v) with
      | Some msg => Rejected msg
      | None => Loaded (Some v)
      end
    | None => Rejected "Not a valid datetime."
    end
  | _ => Rejected "Not a valid datetime."
  end.

(** A field with neither [required] nor [missing]. *)
Definition optional {A} (f : json → loaded A) (d : gmap string json)
    (name : string) : loaded A :=
  match d !! name with
  | None => Absent
  | Some raw => f raw
  end.

(** A field declared [required=True]. *)
Definition required {A} (f : json → loaded A) (d : gmap string json)
    (name : string) : loaded A :=
  match d !! name with
  | None => Rejected "Missing data for required field."
  | Some raw => f raw
  end.

(** A field declared [missing=default]. *)
Definition with_missing {A} (f : json → loaded A) (default : A)
    (d : gmap string json) (name : string) : loaded A :=
  match d !! name with
  | None => Loaded default
  | Some raw => f raw
  end.

(** Keys of the input no field is declared for (the schemas keep
    marshmallow's default [unknown = RAISE]). *)
Definition unknown_fields (declared : list string) (d : gmap string json)
  : ValidationError :=
  (λ kv, (kv.1, "Unknown field.")) <$>
    filter (λ kv, kv.1 ∉ declared) (map_to_list d).

Definition case_fields : list string :=
  ["title"; "description"; "priority"; "status"; "due_date"; "assigned_to"].

(** What [case_create_schema.load] returns. [due_date] and [assigned_to]
    are keys that may be absent ([None]) or hold [None] ([Some None]). *)
Record CaseCreateData := mkCreate {
  c_title : string;
  c_description : string;
  c_priority : string;
  c_status : string;
  c_due_date : option (option datetime.t);
  c_assigned_to : option (option Z)
}.

Definition CaseCreateSchema_load (now : Z) (data : payload)
  : ValidationError + CaseCreateData :=
  match data with
  | NotMapping => inl [("_schema", "Invalid input type.")]
  | Mapping d =>
    let title := required (Str [Length 1 (Some 200%nat)]) d "title" in
    let description := with_missing (Str []) "" d "description" in
    let priority :=
      with_missing (Str [OneOf ["low"; "medium"; "high"]]) "medium" d "priority" in
    let status :=
      with_missing (Str [OneOf ["open"; "in_progress"; "closed"]]) "open" d "status" in
    let due_date := optional (DateTime_allow_none now) d "due_date" in
    let assigned_to := optional Int_allow_none d "assigned_to" in
    let unknown := unknown_fields case_fields d in
    match title, description, priority, status,
          accepted due_date, accepted assigned_to, unknown with
    | Loaded t, Loaded de, Loaded p, Loaded s, Some du, Some a, [] =>
      inr (mkCreate t de p s du a)
    | _, _, _, _, _, _, _ =>
      inl (field_errors "title" title ++ field_errors "description" description
           ++ field_errors "priority" priority ++ field_errors "status" status
           ++ field_errors "due_date" due_date
           ++ field_errors "assigned_to" assigned_to ++ unknown)
    end
  end.

(** What [case_update_schema.load] returns: every key may be absent. *)
Record CaseUpdateData := mkUpdate {
  u_title : option string;
  u_description : option string;
  u_status : option string;
  u_priority : option string;
  u_due_date : option (option datetime.t);
  u_assigned_to : option (option Z)
}.

Definition CaseUpdateSchema_load (now : Z) (data : payload)
  : ValidationError + CaseUpdateData :=
  match data with
  | NotMapping => inl [("_schema", "Invalid input type.")]
  | Mapping d =>
    let title := optional (Str [Length 1 (Some 200%nat)]) d "title" in
    let description := optional (Str []) d "description" in
    let status :=
      optional (Str [OneOf ["open"; "in_progress"; "closed"]]) d "status" in
    let priority := optional (Str [OneOf ["low"; "medium"; "high"]]) d "priority" in
    let due_date := optional (DateTime_allow_none now) d "due_date" in
    let assigned_to := optional Int_allow_none d "assigned_to" in
    let unknown := unknown_fields case_fields d in
    match accepted title, accepted description, accepted status,
          accepted priority, accepted due_date, accepted assigned_to, unknown with
    | Some t, Some de, Some s, Some p, Some du, Some a, [] =>
      inr (mkUpdate t de s p du a)
    | _, _, _, _, _, _, _ =>
      inl (field_errors "title" title ++ field_errors "description" description
           ++ field_errors "status" status ++ field_errors "priority" priority
           ++ field_errors "due_date" due_date
           ++ field_errors "assigned_to" assigned_to ++ unknown)
    end
  end.

End fields.
End schemas.

(** ** Responses *)

Inductive details :=
| ValidationDetails (e : schemas.ValidationError)
| ExceptionDetails (msg : string).

Record Pagination := mkPagination {
  p_page : Z;
  p_per_page : Z;
  p_total : Z;
  p_pages : Z;
  p_has_next : bool;
  p_has_prev : bool
}.

(** The dict a service returns, by shape. *)
Inductive body :=
| Error (error : string) (det : option details)
| InvalidTransition (error : string) (valid_transitions : list string)
| CaseBody (case : CaseDict)
| CaseList (cases : list CaseDict) (pagination : Pagination)
| Message (message : string).

(** Body and HTTP status code. *)
Definition response := (body * Z)%type.

(** What one request finds around it: the clock, and whether
    [db.session.commit()] or the paginated query raises (with the text of
    the exception). *)
Record Env := mkEnv {
  now : Z;
  commit_error : option string;
  query_error : option string
}.

(** The row an UPDATE leaves: [updated_at] has [onupdate], which fires only
    when some column has changed. *)
Definition flush_update (now : Z) (old new : Case.t) : Case.t :=
  if decide (new = old) then old else Case.set_updated_at now new.

(** Truthiness of an optional integer: neither absent, [None] nor [0]. *)
Definition truthy_int (v : option (option Z)) : option Z :=
  match v with
  | Some (Some n) => if decide (n = 0) then None else Some n
  | _ => None
  end.

(** [Query.paginate(page, per_page, error_out=False)] on the ordered rows. *)
Definition paginate {A} (rows : list A) (page per_page : Z) : list A * Pagination :=
  let total := Z.of_nat (length rows) in
  let pages := if decide (total = 0) then 0 else (total + per_page - 1) / per_page in
  (take (Z.to_nat per_page) (drop (Z.to_nat ((page - 1) * per_page)) rows),
   mkPagination page per_page total pages
     (bool_decide (page < pages)) (bool_decide (1 < page))).

(** ** services/simplified_case_service.py *)

Module SimplifiedCaseService.
Section service.
Context `{Library}.

Definition create_case (data : payload) (current_user : User.t) (env : Env)
    (db : Tables) : response * Tables :=
  match schemas.CaseCreateSchema_load (now env) data with
  | inl e => ((Error "Validation failed" (Some (ValidationDetails e)), 400), db)
  | inr validated_data =>
    let assignee :=
      match truthy_int (schemas.c_assigned_to validated_data) with
      | Some a =>
        match users db !! a with
        | Some assigned_user =>
          if User.is_active assigned_user then inr a
          else inl (Error "Assigned user not found or inactive" None, 400)
        | None => inl (Error "Assigned user not found or inactive" None, 400)
        end
      | None => inr (User.id current_user)
      end in
    match assignee with
    | inl resp => (resp, db)
    | inr a =>
      let case :=
        Case.mk (schemas.c_title validated_data)
                (Some (schemas.c_description validated_data))
                (schemas.c_status validated_data)
                (schemas.c_priority validated_data)
                (mjoin (schemas.c_due_date validated_data))
                true (now env) (now env)
                (User.id current_user) (Some a) in
      match commit_error env with
      | None =>
        let id := next_id (cases db) in
        let db' := set_cases (<[id := case]> (cases db)) db in
        ((CaseBody (Case_to_dict db' id case), 201), db')
      | Some e =>
        ((Error "Failed to create case" (Some (ExceptionDetails e)), 500), db)
      end
    end
  end.

(** The [order_by(Case.created_at.desc())] of the listing. *)
Definition newer_first (a b : Z * Case.t) : Prop :=
  Case.created_at b.2 ≤ Case.created_at a.2.

#[global] Instance newer_first_dec : RelDecision newer_first.
Proof. intros a b. unfold newer_first. apply _. Defined.

Definition order_by_created_at_desc (rows : list (Z * Case.t)) : list (Z * Case.t) :=
  merge_sort newer_first rows.

(** [page] and [per_page] out of the query string. *)
Definition parse_page (query_params : gmap string string) : Z :=
  match query_params !! "page" with
  | None => Z.max 1 1
  | Some s =>
    match int_of_str s with
    | Some n => Z.max 1 n
    | None => 1
    end
  end.

Definition parse_per_page (query_params : gmap string string) : Z :=
  match query_params !! "per_page" with
  | None => Z.min (Z.max 1 10) 100
  | Some s =>
    match int_of_str s with
    | Some n => Z.min (Z.max 1 n) 100
    | None => 10
    end
  end.

(** The three optional filters, applied in the order of the source. *)
Definition status_filter (query_params : gmap string string)
    (query : list (Z * Case.t)) : list (Z * Case.t) :=
  match query_params !! "status" with
  | Some st =>
    if bool_decide (st ∈ ["open"; "in_progress"; "closed"])
    then filter (λ r, Case.status r.2 = st) query
    else query
  | None => query
  end.

Definition priority_filter (query_params : gmap string string)
    (query : list (Z * Case.t)) : list (Z * Case.t) :=
  match query_params !! "priority" with
  | Some pr =>
    if bool_decide (pr ∈ ["low"; "medium"; "high"])
    then filter (λ r, Case.priority r.2 = pr) query
    else query
  | None => query
  end.

(** [or_(Case.title.ilike(t), Case.description.ilike(t))]; a NULL
    description matches nothing. *)
Definition matches_search (search_term : string) (c : Case.t) : bool :=
  ilike (Case.title c) search_term
  || match Case.description c with
     | Some d => ilike d search_term
     | None => false
     end.

Definition search_filter (query_params : gmap string string)
    (query : list (Z * Case.t)) : list (Z * Case.t) :=
  match query_params !! "search" with
  | Some term =>
    if decide (term = "") then query
    else
      let search_term := "%" +:+ term +:+ "%" in
      filter (λ r, matches_search search_term r.2 = true) query
  | None => query
  end.

Definition get_cases (query_params : gmap string string) (current_user : User.t)
    (env : Env) (db : Tables) : response :=
  let page := parse_page query_params in
  let per_page := parse_per_page query_params in
  let query := authorization.get_accessible_cases_query current_user db in
  let query := status_filter query_params query in
  let query := priority_filter query_params query in
  let query := search_filter query_params query in
  let query := order_by_created_at_desc query in
  match query_error env with
  | None =>
    let pagination := paginate query page per_page in
    (CaseList ((λ r, Case_to_dict db r.1 r.2) <$> pagination.1) pagination.2, 200)
  | Some e =>
    (Error "Failed to retrieve cases" (Some (ExceptionDetails e)), 500)
  end.

Definition get_case (case_id : Z) (current_user : User.t) (db : Tables) : response :=
  match active_case db case_id with
  | None => (Error "Case not found" None, 404)
  | Some case => (CaseBody (Case_to_dict db case_id case), 200)
  end.

(** The loop over [title, description, priority, due_date, assigned_to]. *)
Definition set_fields (validated_data : schemas.CaseUpdateData) (case : Case.t)
  : Case.t :=
  let case :=
    match schemas.u_title validated_data with
    | Some x => Case.set_title x case
    | None => case
    end in
  let case :=
    match schemas.u_description validated_data with
    | Some x => Case.set_description (Some x) case
    | None => case
    end in
  let case :=
    match schemas.u_priority validated_data with
    | Some x => Case.set_priority x case
    | None => case
    end in
  let case :=
    match schemas.u_due_date validated_data with
    | Some x => Case.set_due_date x case
    | None => case
    end in
  match schemas.u_assigned_to validated_data with
  | Some x => Case.set_assigned_to x case
  | None => case
  end.

Definition update_case (case_id : Z) (data : payload) (current_user : User.t)
    (env : Env) (db : Tables) : response * Tables :=
  match active_case db case_id with
  | None => ((Error "Case not found" None, 404), db)
  | Some case0 =>
    match schemas.CaseUpdateSchema_load (now env) data with
    | inl e => ((Error "Validation failed" (Some (ValidationDetails e)), 400), db)
    | inr validated_data =>
      let status_step :=
        match schemas.u_status validated_data with
        | Some new_status =>
          if negb (Case.can_transition_to case0 new_status) then
            inl (InvalidTransition
                   ("Invalid status transition from " +:+ Case.status case0
                      +:+ " to " +:+ new_status)
                   (Case.get Case.STATUS_TRANSITIONS (Case.status case0)),
                 400)
          else inr (Case.set_status new_status case0)
        | None => inr case0
        end in
      match status_step with
      | inl resp => (resp, db)
      | inr case =>
        let assigned_ok :=
          match truthy_int (schemas.u_assigned_to validated_data) with
          | Some a =>
            match users db !! a with
            | Some assigned_user => User.is_active assigned_user
            | None => false
            end
          | None => true
          end in
        if negb assigned_ok then
          ((Error "Assigned user not found or inactive" None, 400), db)
        else
          let case := set_fields validated_data case in
          match commit_error env with
          | None =>
            let row := flush_update (now env) case0 case in
            let db' := set_cases (<[case_id := row]> (cases db)) db in
            ((CaseBody (Case_to_dict db' case_id row), 200), db')
          | Some e =>
            ((Error "Failed to update case" (Some (ExceptionDetails e)), 500), db)
          end
      end
    end
  end.

Definition delete_case (case_id : Z) (current_user : User.t) (env : Env)
    (db : Tables) : response * Tables :=
  match active_case db case_id with
  | None => ((Error "Case not found" None, 404), db)
  | Some case =>
    let case' := Case.soft_delete case in
    match commit_error env with
    | None =>
      let row := flush_update (now env) case case' in
      ((Message "Case deleted successfully", 200),
       set_cases (<[case_id := row]> (cases db)) db)
    | Some e =>
      ((Error "Failed to delete case" (Some (ExceptionDetails e)), 500), db)
    end
  end.

End service.
End SimplifiedCaseService.

(** ** The shared session, exceptions and the audit trail

    [rbac.py] and [services/case_service.py] interleave audit writes with
    the primary operation on one [db.session]. The session is modelled by
    the committed tables and the tables as the session sees them (with its
    pending changes); a computation either returns a value or raises. *)

Record Request := mkRequest {
  remote_addr : option string;
  header_User_Agent : option string
}.

(** One line of [audit.log], by the fields of its formatter. *)
Record LogLine := mkLogLine {
  l_user_id : option Z;
  l_action : string;
  l_resource : string;
  l_result : string;
  l_details : string
}.

(** [faults] holds what the coming [commit] and [rollback] calls will do,
    in order: [None] to succeed, [Some msg] to raise an exception with that
    text (past the end of the list every call succeeds). Every error the
    database layer raises is an instance of [Exception].
    [blacklisted_tokens] is the process-wide set of revoked token ids of
    [auth.py]. *)
Record World := mkWorld {
  committed : Tables;
  working : Tables;
  faults : list (option string);
  clock : Z;
  request : option Request;
  audit_file : list LogLine;
  stdout : list string;
  blacklisted_tokens : gset string
}.

Definition set_working (t : Tables) (w : World) : World :=
  mkWorld (committed w) t (faults w) (clock w) (request w) (audit_file w)
          (stdout w) (blacklisted_tokens w).

Definition set_committed (t : Tables) (w : World) : World :=
  mkWorld t (working w) (faults w) (clock w) (request w) (audit_file w)
          (stdout w) (blacklisted_tokens w).

Definition set_faults (f : list (option string)) (w : World) : World :=
  mkWorld (committed w) (working w) f (clock w) (request w) (audit_file w)
          (stdout w) (blacklisted_tokens w).

Definition set_audit_file (l : list LogLine) (w : World) : World :=
  mkWorld (committed w) (working w) (faults w) (clock w) (request w) l
          (stdout w) (blacklisted_tokens w).

Definition set_stdout (l : list string) (w : World) : World :=
  mkWorld (committed w) (working w) (faults w) (clock w) (request w)
          (audit_file w) l (blacklisted_tokens w).

Inductive outcome (A : Type) :=
| Returned (a : A)
| Raised (e : string).
Arguments Returned {A} a.
Arguments Raised {A} e.

Definition M (A : Type) : Type := World → outcome A * World.

#[global] Instance M_ret : MRet M := λ A a w, (Returned a, w).

#[global] Instance M_bind : MBind M := λ A B f m w,
  match m w with
  | (Returned a, w') => f a w'
  | (Raised e, w') => (Raised e, w')
  end.

(** [try: body except Exception as e: handler(e)]. *)
Definition try_except {A} (body : M A) (handler : string → M A) : M A := λ w,
  match body w with
  | (Returned a, w') => (Returned a, w')
  | (Raised e, w') => handler e w'
  end.

Definition get_world : M World := λ w, (Returned w, w).

Definition modify_world (f : World → World) : M unit := λ w, (Returned tt, f w).

(** The next entry of [faults], consumed. *)
Definition next_fault : M (option string) := λ w,
  match faults w with
  | [] => (Returned None, w)
  | f :: fs => (Returned f, set_faults fs w)
  end.

Definition raise {A} (e : string) : M A := λ w, (Raised e, w).

(** What a successful flush writes: the session's rows, with [updated_at]
    refreshed on every case row that differs from the committed one. *)
Definition flush (now : Z) (old new : Tables) : Tables :=
  mkTables (users new)
    (map_imap (λ id row,
                 Some match cases old !! id with
                      | Some before => flush_update now before row
                      | None => row
                      end)
              (cases new))
    (audit_logs new).

(** [db.session.commit()]. *)
Definition session_commit : M unit :=
  f ← next_fault;
  match f with
  | Some e => raise e
  | None =>
    modify_world (λ w,
      let t := flush (clock w) (committed w) (working w) in
      set_working t (set_committed t w))
  end.

(** [db.session.rollback()]. *)
Definition session_rollback : M unit :=
  f ← next_fault;
  match f with
  | Some e => raise e
  | None => modify_world (λ w, set_working (committed w) w)
  end.

(** [db.session.add(audit_record)]. *)
Definition session_add_audit (r : AuditLog.t) : M unit :=
  modify_world (λ w,
    set_working (set_audit_logs (audit_logs (working w) ++ [r]) (working w)) w).

Definition print (line : string) : M unit :=
  modify_world (λ w, set_stdout (stdout w ++ [line]) w).

(** Truthiness of an optional integer argument. *)
Definition truthy (v : option Z) : bool :=
  match v with
  | Some n => negb (bool_decide (n = 0))
  | None => false
  end.

Module AuditLogger.

(** [audit_logger.info("", extra=...)]: one line in [audit.log]. The
    [logging] module reports a failing handler on stderr and carries on. *)
Definition audit_logger_info (line : LogLine) : M unit :=
  modify_world (λ w, set_audit_file (audit_file w ++ [line]) w).

Definition log_action (user_id : option Z) (action resource_type : string)
    (resource_id : option Z) (result details : string) : M unit :=
  audit_logger_info
    (mkLogLine user_id action
       (if truthy resource_id
        then resource_type +:+ ":" +:+ pretty (default 0 resource_id)
        else resource_type)
       result details);;
  try_except
    (w ← get_world;
     let audit_record :=
       AuditLog.mk user_id action resource_type resource_id result details
         (req ← request w; remote_addr req)
         (req ← request w; header_User_Agent req)
         (clock w) in
     session_add_audit audit_record;;
     session_commit)
    (λ e,
       print ("Audit logging failed: " +:+ e);;
       try_except session_rollback (λ _, mret tt)).

End AuditLogger.

(** ** auth.py and the route guard of authorization.py *)

(** The claims of a verified JWT the guard reads. *)
Record Token := mkToken {
  jti : string;
  identity : string
}.

Module auth.
Section guard.
Context `{Library}.

(** [auth_required(admin_only)(f)], called with a token [jwt_required] has
    accepted. [int(current_user_id)] raises on a malformed identity, and
    the [except] clause answers 422 for that and for anything [f] raises. *)
Definition auth_required (admin_only : bool) (f : User.t → M response)
    (token : Token) : M response :=
  try_except
    (w ← get_world;
     if bool_decide (jti token ∈ blacklisted_tokens w) then
       AuditLogger.log_action None "AUTH_CHECK" "TOKEN" None "REVOKED"
         "Token blacklisted";;
       mret (Error "Token has been revoked" None, 401)
     else
       let current_user_id := identity token in
       match int_of_str current_user_id with
       | None => raise ("invalid literal for int(): " +:+ current_user_id)
       | Some n =>
         let current_user := users (working w) !! n in
         match current_user with
         | None =>
           AuditLogger.log_action (Some n) "AUTH_CHECK" "USER" None "INACTIVE"
             "User not found or inactive";;
           mret (Error "User not found or inactive" None, 401)
         | Some current_user =>
           if negb (User.is_active current_user) then
             AuditLogger.log_action (Some n) "AUTH_CHECK" "USER" None "INACTIVE"
               "User not found or inactive";;
             mret (Error "User not found or inactive" None, 401)
           else if admin_only && negb (User.is_admin current_user) then
             AuditLogger.log_action (Some (User.id current_user)) "AUTH_CHECK"
               "ADMIN" None "FORBIDDEN" "Admin role required";;
             mret (Error "Admin access required" None, 403)
           else f current_user
         end
       end)
    (λ e,
       print ("Error in auth decorator: " +:+ e);;
       AuditLogger.log_action None "AUTH_CHECK" "ERROR" None "ERROR" e;;
       mret (Error "Authentication error" (Some (ExceptionDetails e)), 422)).

End guard.
End auth.

(** [require_case_access(action)(f)] of [authorization.py]: [f] gets the
    case when one was fetched. *)
Definition require_case_access (action : string)
    (f : User.t → option Z → option Case.t → M response)
    (current_user : User.t) (case_id : option Z) : M response :=
  w ← get_world;
  let fetched :=
    if truthy case_id && negb (bool_decide (action = "create"))
    then Some (active_case (working w) (default 0 case_id))
    else None in
  match fetched with
  | Some None => mret (Error "Case not found" None, 404)
  | _ =>
    let case := mjoin fetched in
    let '(authorized, error_response) :=
      authorization.authorize_case_access case current_user action in
    if negb authorized then mret (Error "Unauthorized access" None, 403)
    else f current_user case_id case
  end.

(** ** services/case_service.py: the audited delete *)

Module CaseService.

(** [Case.query.filter_by(id=case_id, is_active=True).first()] through the
    session. *)
Definition query_active_case (case_id : Z) : M (option Case.t) :=
  w ← get_world; mret (active_case (working w) case_id).

(** The in-place change of a loaded row, pending until the commit. *)
Definition store_case (case_id : Z) (c : Case.t) : M unit :=
  modify_world (λ w,
    set_working (set_cases (<[case_id := c]> (cases (working w))) (working w)) w).

Definition delete_case (case_id : Z) (current_user : User.t) : M response :=
  case ← query_active_case case_id;
  match case with
  | None =>
    AuditLogger.log_action (Some (User.id current_user)) "DELETE_CASE" "CASE"
      (Some case_id) "NOT_FOUND" "Case not found";;
    mret (Error "Case not found" None, 404)
  | Some case =>
    if negb (RBACManager.can_delete_case current_user case) then
      AuditLogger.log_action (Some (User.id current_user)) "DELETE_CASE" "CASE"
        (Some case_id) "FORBIDDEN" "Insufficient delete permissions";;
      mret (Error "Insufficient permissions to delete this case" None, 403)
    else
      try_except
        (let case_title := Case.title case in
         store_case case_id (Case.soft_delete case);;
         session_commit;;
         AuditLogger.log_action (Some (User.id current_user)) "DELETE_CASE"
           "CASE" (Some case_id) "SUCCESS"
           ("Deleted case '" +:+ case_title +:+ "'");;
         mret (Message "Case deleted successfully", 200))
        (λ e,
           session_rollback;;
           AuditLogger.log_action (Some (User.id current_user)) "DELETE_CASE"
             "CASE" (Some case_id) "ERROR" e;;
           mret (Error "Failed to delete case" (Some (ExceptionDetails e)), 500))
  end.

End CaseService.

(** ** Sequences of requests and concrete data for the examples *)

(** One [update_case] request: its arguments and what it finds around it. *)
Record UpdateCall := mkUpdateCall {
  uc_case_id : Z;
  uc_data : payload;
  uc_current_user : User.t;
  uc_env : Env
}.

(** The tables after a sequence of [update_case] requests, oldest first. *)
Definition run_updates `{Library} (calls : list UpdateCall) (db : Tables) : Tables :=
  foldl (λ db call,
           (SimplifiedCaseService.update_case (uc_case_id call) (uc_data call)
              (uc_current_user call) (uc_env call) db).2)
        db calls.

(** A library for the examples: decimal digit strings are not needed there,
    so nothing parses and [ILIKE] matches nothing. *)
Definition example_library : Library :=
  {| int_of_str := λ _, None;
     from_iso_datetime := λ _, None;
     ilike := λ _ _, false |}.

Definition example_admin : User.t := User.mk 1 "root" "root@example.org" "admin" true.
Definition example_user : User.t := User.mk 2 "bob" "bob@example.org" "user" true.
Definition example_other : User.t := User.mk 3 "eve" "eve@example.org" "user" true.

(** An open case owned by user 2 and assigned to user 3, and a closed case
    owned by user 3. *)
Definition example_open_case : Case.t :=
  Case.mk "Printer" (Some "out of toner") "open" "medium" None true 10 10 2 (Some 3).
Definition example_closed_case : Case.t :=
  Case.mk "Router" None "closed" "high" None true 20 25 3 None.

Definition example_db : Tables :=
  mkTables {[ 1 := example_admin; 2 := example_user; 3 := example_other ]}
           {[ 1 := example_open_case; 2 := example_closed_case ]}
           [].

Definition example_env : Env := mkEnv 100 None None.

(** A clean session over the example tables, with the given outcomes of the
    coming commits and rollbacks. *)
Definition example_world (fs : list (option string)) : World :=
  mkWorld example_db example_db fs 100
          (Some (mkRequest (Some "10.0.0.1") (Some "curl"))) [] [] ∅.

(** A deactivated administrator, user 4, a session that knows this user,
    and a library whose [int()] reads the identity "4". *)
Definition example_inactive_admin : User.t :=
  User.mk 4 "old_root" "old@example.org" "admin" false.

Definition example_world_with_inactive : World :=
  let db := mkTables (<[4 := example_inactive_admin]> (users example_db))
                     (cases example_db) [] in
  mkWorld db db [] 100 None [] [] ∅.

Definition example_int_library : Library :=
  {| int_of_str := λ s, if decide (s = "4") then Some 4 else None;
     from_iso_datetime := λ _, None;
     ilike := λ _ _, false |}.

(** ** Histories of a case *)

(** The object after a sequence of [update_status] calls, oldest first;
    the flags the calls return are dropped. *)
Definition run_update_status (self : Case.t) (targets : list string) : Case.t :=
  foldl (λ c new_status, (Case.update_status c new_status).2) self targets.

(** [status_path s s'] holds when [s'] is reached from [s] by zero or more
    steps of [STATUS_TRANSITIONS]. *)
Inductive status_path : string → string → Prop :=
| status_path_here (s : string) : status_path s s
| status_path_step (s s' s'' : string) :
    s' ∈ Case.get Case.STATUS_TRANSITIONS s →
    status_path s' s'' →
    status_path s s''.

(** One request to a mutating operation of [SimplifiedCaseService]. *)
Inductive ServiceCall :=
| CallCreate (data : payload) (current_user : User.t) (env : Env)
| CallUpdate (case_id : Z) (data : payload) (current_user : User.t) (env : Env)
| CallDelete (case_id : Z) (current_user : User.t) (env : Env).

Definition run_call `{Library} (db : Tables) (call : ServiceCall) : Tables :=
  match call with
  | CallCreate data u env => (SimplifiedCaseService.create_case data u env db).2
  | CallUpdate case_id data u env =>
    (SimplifiedCaseService.update_case case_id data u env db).2
  | CallDelete case_id u env => (SimplifiedCaseService.delete_case case_id u env db).2
  end.

(** The tables after a sequence of requests, oldest first. *)
Definition run_calls `{Library} (calls : list ServiceCall) (db : Tables) : Tables :=
  foldl run_call db calls.

(** What the columns of a case row are meant to hold: the two enumerations
    of [models.py] and a title within the bounds of its column. *)
Definition well_formed (c : Case.t) : Prop :=
  Case.status c ∈ Case.VALID_STATUSES
  ∧ Case.priority c ∈ ["low"; "medium"; "high"]
  ∧ (1 ≤ String.length (Case.title c) ≤ 200)%nat.

(** How a row may differ from what it was: same owner and creation time,
    a status further along the transition table, and no difference at all
    for a row that was soft-deleted. *)
Definition row_evolves (c c' : Case.t) : Prop :=
  Case.created_by c' = Case.created_by c
  ∧ Case.created_at c' = Case.created_at c
  ∧ status_path (Case.status c) (Case.status c')
  ∧ (Case.is_active c = false → c' = c).

(** ** More of auth.py, rbac.py, routes.py and services/case_service.py *)

Definition set_blacklisted_tokens (s : gset string) (w : World) : World :=
  mkWorld (committed w) (working w) (faults w) (clock w) (request w)
          (audit_file w) (stdout w) s.

(** [auth.logout_user()], for the token [get_jwt()] returns. *)
Definition logout_user (token : Token) : M response :=
  modify_world (λ w, set_blacklisted_tokens ({[ jti token ]} ∪ blacklisted_tokens w) w);;
  mret (Message "Successfully logged out", 200).

(** The decorator stack of the four case routes of [routes.py]:
    [@auth_required()] over [@require_case_access(action)] over the route
    function [f]. *)
Definition case_route `{Library} (action : string)
    (f : User.t → option Z → option Case.t → M response)
    (case_id : option Z) (token : Token) : M response :=
  auth.auth_required false
    (λ current_user, require_case_access action f current_user case_id) token.

(** [rbac.case_loader(case_id)]. *)
Definition case_loader (case_id : Z) : M (option Resource) :=
  w ← get_world; mret (ResCase <$> active_case (working w) case_id).

(** [rbac.require_permission(permission, resource_loader)(f)], called when
    [g.current_user] holds [g_current_user]; [name] is [f.__name__], and the
    loader and [f] come with the arguments of the call already supplied. *)
Definition require_permission (permission : Permission)
    (resource_loader : option (M (option Resource))) (name : string)
    (f : M response) (g_current_user : option User.t) : M response :=
  match g_current_user with
  | None =>
    AuditLogger.log_action None name "ENDPOINT" None "UNAUTHORIZED"
      "No authenticated user";;
    mret (Error "Authentication required" None, 401)
  | Some user =>
    loaded ←
      match resource_loader with
      | None => mret (inr None)
      | Some loader =>
        try_except
          (resource ← loader; mret (inr resource))
          (λ e,
             AuditLogger.log_action (Some (User.id user)) name "ENDPOINT" None
               "ERROR" ("Resource loading failed: " +:+ e);;
             mret (inl (Error "Resource not found" None, 404)))
      end;
    match loaded with
    | inl resp => mret resp
    | inr resource =>
      if negb (RBACManager.has_permission (Some user) permission resource) then
        AuditLogger.log_action (Some (User.id user)) name "ENDPOINT" None
          "FORBIDDEN" ("Missing permission: " +:+ Permission_value permission);;
        mret (Error "Insufficient permissions" None, 403)
      else
        AuditLogger.log_action (Some (User.id user)) name "ENDPOINT" None
          "SUCCESS" ("Permission: " +:+ Permission_value permission);;
        f
    end
  end.

(** [CaseService.get_case] of [services/case_service.py]. *)
Definition CaseService_get_case (case_id : Z) (current_user : User.t)
    (db : Tables) : response :=
  match active_case db case_id with
  | None => (Error "Case not found" None, 404)
  | Some case =>
    if negb (User.is_admin current_user)
       && (negb (bool_decide (Case.created_by case = User.id current_user))
           && negb (bool_decide (Case.assigned_to case = Some (User.id current_user))))
    then (Error "Access denied" None, 403)
    else (CaseBody (Case_to_dict db case_id case), 200)
  end.

(** What [routes.get_all_cases_admin] answers: the cases, or the text of
    the exception the query raised. *)
Inductive admin_cases :=
| AdminCases (cases : list CaseDict)
| AdminCasesError (error : string) (det : string).

(** The body of [routes.get_all_cases_admin], behind
    [@auth_required(admin_only=True)]. *)
Definition get_all_cases_admin (query_params : gmap string string) (env : Env)
    (db : Tables) : admin_cases * Z :=
  let query := map_to_list (cases db) in
  let query :=
    match query_params !! "status" with
    | Some st =>
      if decide (st = "") then query
      else filter (λ r, Case.status r.2 = st) query
    | None => query
    end in
  let query :=
    if decide (query_params !! "is_active" = Some "false")
    then filter (λ r, Case.is_active r.2 = false) query
    else filter (λ r, Case.is_active r.2 = true) query in
  match query_error env with
  | None =>
    (AdminCases ((λ r, Case_to_dict db r.1 r.2)
                   <$> SimplifiedCaseService.order_by_created_at_desc query), 200)
  | Some e => (AdminCasesError "Failed to retrieve cases" e, 500)
  end.

(** One entry of the list [routes.get_users] answers with. *)
Record UserBrief := mkUserBrief {
  b_id : Z;
  b_username : string;
  b_email : string
}.

(** The body of [routes.get_users], behind [@auth_required()]. *)
Definition get_users (current_user : User.t) : M (list UserBrief * Z) :=
  w ← get_world;
  users ←
    (if RBACManager.has_permission (Some current_user) ASSIGN_CASES None then
       AuditLogger.log_action (Some (User.id current_user)) "GET_ALL_USERS" "USER"
         None "SUCCESS" "Admin accessed full user list";;
       mret (filter (λ u, User.is_active u = true)
               ((map_to_list (users (working w))).*2))
     else
       AuditLogger.log_action (Some (User.id current_user)) "GET_SELF_USER" "USER"
         None "SUCCESS" "User accessed own profile only";;
       mret [current_user]);
  mret ((λ user, mkUserBrief (User.id user) (User.username user) (User.email user))
          <$> users, 200).

(* ================================================================== *)
(** * Properties *)
(* ================================================================== *)

Lemma Role_of_value_value (r : Role) : Role_of_value (Role_value r) = Some r.
Proof. by destruct r. Qed.

(** The transition sets, spelled out: a status has a successor only along
    open, in_progress, closed. *)
Lemma can_transition_to_spec (c : Case.t) (new_status : string) :
  Case.can_transition_to c new_status = true ↔
  (Case.status c = "open" ∧ new_status = "in_progress")
  ∨ (Case.status c = "in_progress" ∧ new_status = "closed").
Proof.
  unfold Case.can_transition_to, Case.VALID_STATUSES, Case.STATUS_TRANSITIONS.
  simpl. split.
  - destruct (bool_decide _) eqn:Hv; simpl; [|done].
    intros Ht. apply bool_decide_eq_true in Ht.
    repeat case_decide;
      first [ by apply not_elem_of_nil in Ht
            | apply list_elem_of_singleton in Ht; subst; auto ].
  - intros [[-> ->] | [-> ->]]; reflexivity.
Qed.

(** C4. [Case.can_transition_to] is true exactly when the target is a
    recognized status and lies in the transition set of the current status;
    the sets are open to in_progress, in_progress to closed, closed to
    nothing. So open to closed is refused, nothing leaves closed, and no
    status may move to itself. *)
Theorem can_transition_to_state_machine :
  (∀ (c : Case.t) (to : string),
     Case.can_transition_to c to = true ↔
     to ∈ Case.VALID_STATUSES
     ∧ to ∈ Case.get Case.STATUS_TRANSITIONS (Case.status c))
  ∧ Case.STATUS_TRANSITIONS
    = [("open", ["in_progress"]); ("in_progress", ["closed"]); ("closed", [])]
  ∧ (∀ (c : Case.t) (to : string),
       Case.can_transition_to c to = true ↔
       (Case.status c = "open" ∧ to = "in_progress")
       ∨ (Case.status c = "in_progress" ∧ to = "closed"))
  ∧ (∀ c : Case.t, Case.status c = "open" →
       Case.can_transition_to c "closed" = false)
  ∧ (∀ (c : Case.t) (to : string), Case.status c = "closed" →
       Case.can_transition_to c to = false)
  ∧ (∀ c : Case.t, Case.can_transition_to c (Case.status c) = false).
Proof.
  split_and!.
  - intros c to. unfold Case.can_transition_to.
    destruct (bool_decide (to ∈ Case.VALID_STATUSES)) eqn:Hv; simpl.
    + apply bool_decide_eq_true in Hv. rewrite bool_decide_eq_true. tauto.
    + apply bool_decide_eq_false in Hv. split; [done | tauto].
  - reflexivity.
  - apply can_transition_to_spec.
  - intros c Hs. apply not_true_is_false. rewrite can_transition_to_spec.
    rewrite Hs. intros [[_ ?] | [? _]]; discriminate.
  - intros c to Hs. apply not_true_is_false. rewrite can_transition_to_spec.
    rewrite Hs. intros [[? _] | [? _]]; discriminate.
  - intros c. apply not_true_is_false. rewrite can_transition_to_spec.
    intros [[H1 H2] | [H1 H2]]; rewrite H1 in H2; discriminate.
Qed.

(** *** The capability check and the coarse action rule *)

Lemma has_permission_inactive (u : User.t) (p : Permission) (r : option Resource) :
  User.is_active u = false → RBACManager.has_permission (Some u) p r = false.
Proof. intros Hin. unfold RBACManager.has_permission. by rewrite Hin. Qed.

Lemma authorize_case_access_ignores_is_active (case : option Case.t) (u : User.t)
    (b : bool) (action : string) :
  authorization.authorize_case_access case (User.set_is_active b u) action
  = authorization.authorize_case_access case u action.
Proof. reflexivity. Qed.

(** C1, as stated, fails: [authorize_case_access] never reads the active
    flag, so an inactive administrator is authorized to read a case. *)
Lemma inactive_admin_is_authorized :
  let admin := User.mk 1 "root" "root@example.org" "admin" false in
  let case := Case.mk "t" None "open" "medium" None true 0 0 2 None in
  User.is_active admin = false
  ∧ authorization.authorize_case_access (Some case) admin "read" = (true, None).
Proof. split; reflexivity. Qed.

(** C1, amended. An inactive actor is denied by [has_permission] for every
    permission and every optional resource. [authorize_case_access] does not
    look at the active flag: it answers for an inactive actor what it
    answers for the same actor once active. *)
Theorem inactive_actor_capability_checks (u : User.t) :
  User.is_active u = false →
  (∀ (p : Permission) (r : option Resource),
     RBACManager.has_permission (Some u) p r = false)
  ∧ (∀ (case : option Case.t) (action : string),
       authorization.authorize_case_access case u action
       = authorization.authorize_case_access case (User.set_is_active true u) action).
Proof.
  intros Hin. split.
  - intros p r. by apply has_permission_inactive.
  - intros case action. by rewrite authorize_case_access_ignores_is_active.
Qed.

(** A deactivated user holds no permission. *)
Lemma inactive_actor_capability_checks_witness :
  let u := User.mk 2 "bob" "bob@example.org" "user" false in
  (∀ (p : Permission) (r : option Resource),
     RBACManager.has_permission (Some u) p r = false)
  ∧ (∀ (case : option Case.t) (action : string),
       authorization.authorize_case_access case u action
       = authorization.authorize_case_access case (User.set_is_active true u) action).
Proof.
  exact (inactive_actor_capability_checks
           (User.mk 2 "bob" "bob@example.org" "user" false) eq_refl).
Defined.

Lemma authorize_admin (case : option Case.t) (u : User.t) (action : string) :
  User.role u = "admin" →
  authorization.authorize_case_access case u action = (true, None).
Proof. intros Hr. unfold authorization.authorize_case_access. by rewrite decide_True. Qed.

Lemma authorize_read (c : Case.t) (u : User.t) :
  User.role u ≠ "admin" →
  (authorization.authorize_case_access (Some c) u "read").1 = true ↔
  Case.created_by c = User.id u ∨ Case.assigned_to c = Some (User.id u).
Proof.
  intros Hr. unfold authorization.authorize_case_access.
  rewrite decide_False by done. simpl.
  do 2 case_bool_decide; simpl; intuition congruence.
Qed.

Lemma authorize_modify (c : Case.t) (u : User.t) (action : string) :
  User.role u ≠ "admin" → action ≠ "create" → action ≠ "read" →
  (authorization.authorize_case_access (Some c) u action).1 = true ↔
  Case.created_by c = User.id u ∧ Case.status c ≠ "closed".
Proof.
  intros Hr Hc Hd. unfold authorization.authorize_case_access.
  rewrite !decide_False by done.
  case_bool_decide; simpl; [|intuition congruence].
  case_decide; simpl; intuition congruence.
Qed.

(** C2. The coarse action rule: an administrator is always authorized (so
    also to write a closed case); for anyone else, read is authorized
    exactly for the owner or the assignee, write and delete exactly for the
    owner of a case that is not closed, and an assignee who is not the
    owner gets neither write nor delete. *)
Theorem authorize_case_access_rule (c : Case.t) (u : User.t) :
  (User.role u = "admin" →
     (∀ (case : option Case.t) (action : string),
        (authorization.authorize_case_access case u action).1 = true)
     ∧ (Case.status c = "closed" →
        (authorization.authorize_case_access (Some c) u "write").1 = true))
  ∧ (User.role u ≠ "admin" →
       ((authorization.authorize_case_access (Some c) u "read").1 = true ↔
        Case.created_by c = User.id u ∨ Case.assigned_to c = Some (User.id u))
     ∧ ((authorization.authorize_case_access (Some c) u "write").1 = true ↔
        Case.created_by c = User.id u ∧ Case.status c ≠ "closed")
     ∧ ((authorization.authorize_case_access (Some c) u "delete").1 = true ↔
        Case.created_by c = User.id u ∧ Case.status c ≠ "closed")
     ∧ (Case.assigned_to c = Some (User.id u) →
        Case.created_by c ≠ User.id u →
        (authorization.authorize_case_access (Some c) u "write").1 = false
        ∧ (authorization.authorize_case_access (Some c) u "delete").1 = false)).
Proof.
  split.
  - intros Hr. split.
    + intros case action. by rewrite authorize_admin.
    + intros _. by rewrite authorize_admin.
  - intros Hr. split_and!.
    + by apply authorize_read.
    + by apply authorize_modify.
    + by apply authorize_modify.
    + intros _ Hno. split; apply not_true_is_false;
        rewrite authorize_modify by done; tauto.
Qed.

Lemma ROLE_PERMISSIONS_get_table (R : Role) (perms : list Permission) :
  (R, perms) ∈ ROLE_PERMISSIONS ↔ ROLE_PERMISSIONS_get ROLE_PERMISSIONS R = perms.
Proof.
  unfold ROLE_PERMISSIONS. split.
  - intros Hin. repeat (apply elem_of_cons in Hin as [Hin | Hin]; [by inversion Hin|]).
    by apply not_elem_of_nil in Hin.
  - intros <-. destruct R; simpl; set_solver.
Qed.

Lemma Role_of_value_None (s : string) :
  s ∉ Role_value <$> [ADMIN; USER; MANAGER; VIEWER] → Role_of_value s = None.
Proof.
  simpl. intros Hn. unfold Role_of_value.
  repeat case_decide; subst; try done; exfalso; apply Hn; set_solver.
Qed.

(** C3. With no resource, an active actor whose role is a role of the
    static table holds a permission exactly when the table lists it for
    that role. An actor whose role string is no role has no permission at
    all and an empty permission list, and so has the null actor. *)
Theorem has_permission_is_table_membership :
  (∀ (R : Role) (perms : list Permission) (P : Permission) (u : User.t),
     (R, perms) ∈ ROLE_PERMISSIONS →
     User.role u = Role_value R →
     User.is_active u = true →
     RBACManager.has_permission (Some u) P None = true ↔ P ∈ perms)
  ∧ (∀ R : Role, ∃ perms, (R, perms) ∈ ROLE_PERMISSIONS)
  ∧ (∀ u : User.t,
       User.role u ∉ Role_value <$> [ADMIN; USER; MANAGER; VIEWER] →
       (∀ (P : Permission) (r : option Resource),
          RBACManager.has_permission (Some u) P r = false)
       ∧ RBACManager.get_user_permissions (Some u) = [])
  ∧ RBACManager.get_user_permissions None = [].
Proof.
  split_and!.
  - intros R perms P u Hin Hr Ha.
    apply ROLE_PERMISSIONS_get_table in Hin.
    unfold RBACManager.has_permission.
    rewrite Ha, Hr, Role_of_value_value, Hin. simpl.
    case_bool_decide; simpl; intuition congruence.
  - intros R. exists (ROLE_PERMISSIONS_get ROLE_PERMISSIONS R).
    by apply ROLE_PERMISSIONS_get_table.
  - intros u Hn. apply Role_of_value_None in Hn. split.
    + intros P r. unfold RBACManager.has_permission. rewrite Hn.
      by destruct (User.is_active u).
    + unfold RBACManager.get_user_permissions. by rewrite Hn.
  - reflexivity.
Qed.

(** *** The case services *)

Section service_properties.
Context `{Library}.

Lemma valid_transitions_are_next_states (c : Case.t) (s : string) :
  s ∈ Case.get Case.STATUS_TRANSITIONS (Case.status c) ↔
  Case.can_transition_to c s = true.
Proof.
  rewrite can_transition_to_spec. unfold Case.STATUS_TRANSITIONS. simpl.
  repeat case_decide; rewrite ?list_elem_of_singleton, ?elem_of_nil;
    intuition congruence.
Qed.

(** C5. An update whose validated status is not a legal next status of an
    existing active case is answered 400 with a body that names the current
    and the requested status and lists the legal next statuses of the
    current one; the tables, and so the case and its status, stay as they
    were. *)
Theorem update_case_rejects_illegal_transition
    (case_id : Z) (data : payload) (current_user : User.t) (env : Env)
    (db : Tables) (case : Case.t) (validated_data : schemas.CaseUpdateData)
    (new_status : string) :
  active_case db case_id = Some case →
  schemas.CaseUpdateSchema_load (now env) data = inr validated_data →
  schemas.u_status validated_data = Some new_status →
  Case.can_transition_to case new_status = false →
  SimplifiedCaseService.update_case case_id data current_user env db
  = ((InvalidTransition
        ("Invalid status transition from " +:+ Case.status case
           +:+ " to " +:+ new_status)
        (Case.get Case.STATUS_TRANSITIONS (Case.status case)),
      400),
     db)
  ∧ (∀ s : string,
       s ∈ Case.get Case.STATUS_TRANSITIONS (Case.status case) ↔
       Case.can_transition_to case s = true)
  ∧ active_case
      (SimplifiedCaseService.update_case case_id data current_user env db).2
      case_id = Some case.
Proof.
  intros Hcase Hload Hst Hno.
  assert (SimplifiedCaseService.update_case case_id data current_user env db
          = ((InvalidTransition
                ("Invalid status transition from " +:+ Case.status case
                   +:+ " to " +:+ new_status)
                (Case.get Case.STATUS_TRANSITIONS (Case.status case)),
              400),
             db)) as Heq.
  { unfold SimplifiedCaseService.update_case.
    rewrite Hcase, Hload, Hst, Hno. reflexivity. }
  split_and!.
  - exact Heq.
  - intros s. apply valid_transitions_are_next_states.
  - rewrite Heq. exact Hcase.
Qed.

Lemma active_case_lookup (db : Tables) (case_id : Z) (c : Case.t) :
  active_case db case_id = Some c →
  cases db !! case_id = Some c ∧ Case.is_active c = true.
Proof.
  unfold active_case. destruct (cases db !! case_id) as [c'|]; [|done].
  destruct (Case.is_active c') eqn:Ha; [|done]. by intros [= ->].
Qed.

Lemma created_by_set_fields (v : schemas.CaseUpdateData) (c : Case.t) :
  Case.created_by (SimplifiedCaseService.set_fields v c) = Case.created_by c.
Proof.
  unfold SimplifiedCaseService.set_fields.
  by destruct (schemas.u_title v), (schemas.u_description v),
     (schemas.u_priority v), (schemas.u_due_date v), (schemas.u_assigned_to v).
Qed.

Lemma created_by_flush_update (t : Z) (old new : Case.t) :
  Case.created_by new = Case.created_by old →
  Case.created_by (flush_update t old new) = Case.created_by old.
Proof. unfold flush_update. by case_decide. Qed.

(** One [update_case] request leaves the owner column of every row, and the
    set of rows, as they were. *)
Lemma update_case_created_by (case_id : Z) (data : payload) (u : User.t)
    (env : Env) (db : Tables) (id : Z) :
  Case.created_by <$>
    cases (SimplifiedCaseService.update_case case_id data u env db).2 !! id
  = Case.created_by <$> cases db !! id.
Proof.
  unfold SimplifiedCaseService.update_case.
  destruct (active_case db case_id) as [case0|] eqn:Hc; [|done].
  apply active_case_lookup in Hc as [Hc _].
  repeat case_match; simplify_eq/=; try done.
  all: destruct (decide (case_id = id)) as [->|Hne];
    [ rewrite lookup_insert_eq, Hc; simpl; f_equal;
      apply created_by_flush_update; by rewrite created_by_set_fields
    | by rewrite lookup_insert_ne ].
Qed.

Lemma next_id_fresh {A} (m : gmap Z A) : m !! next_id m = None.
Proof.
  destruct (m !! next_id m) as [v|] eqn:Hl; [|done].
  apply elem_of_map_to_list in Hl.
  assert (next_id m ∈ (map_to_list m).*1) as Hin.
  { apply list_elem_of_fmap. by exists (next_id m, v). }
  assert (∀ (l : list Z) (k : Z), k ∈ l → k ≤ foldr Z.max 0 l) as Hmax.
  { induction l as [|x l IH]; intros k Hk; [by apply elem_of_nil in Hk|].
    simpl. apply elem_of_cons in Hk as [->|Hk]; [lia|].
    specialize (IH k Hk). lia. }
  apply Hmax in Hin. unfold next_id in Hin. lia.
Qed.

(** C7. The owner of a case is fixed when the case is created (it is the
    creating actor, and the new row takes a key no row had) and no sequence
    of [update_case] requests, whatever their payloads, actors and
    surroundings, changes the owner of any case or adds or removes a row. *)
Theorem created_by_is_immutable :
  (∀ (data : payload) (u : User.t) (env : Env) (db : Tables)
     (b : body) (db' : Tables),
     SimplifiedCaseService.create_case data u env db = ((b, 201), db') →
     ∃ (id : Z) (case : Case.t),
       cases db !! id = None
       ∧ cases db' = <[id := case]> (cases db)
       ∧ Case.created_by case = User.id u)
  ∧ (∀ (calls : list UpdateCall) (db : Tables) (id : Z),
       Case.created_by <$> cases (run_updates calls db) !! id
       = Case.created_by <$> cases db !! id).
Proof.
  split.
  - intros data u env db b db'. unfold SimplifiedCaseService.create_case.
    destruct (schemas.CaseCreateSchema_load _ _) as [e|v]; [by intros [= ]|].
    destruct (truthy_int _) as [a|].
    + destruct (users db !! a) as [au|]; [|by intros [= ]].
      destruct (User.is_active au); [|by intros [= ]].
      destruct (commit_error env); [by intros [= ]|].
      intros [= _ <-]. eexists _, _. split; [apply next_id_fresh|]. done.
    + destruct (commit_error env); [by intros [= ]|].
      intros [= _ <-]. eexists _, _. split; [apply next_id_fresh|]. done.
  - intros calls. unfold run_updates.
    induction calls as [|call calls IH]; intros db id; [done|].
    simpl. rewrite IH. apply update_case_created_by.
Qed.

(** C8. [delete_case] is a soft delete, and deleting twice is the same as
    deleting once: when the commit goes through, the first request on an
    existing active case answers 200 and leaves the row in the table with
    only [is_active] (now false) and [updated_at] rewritten; the second
    request on the same id answers 404 "Case not found", not a 500, and
    leaves the tables exactly as the first left them. *)
Theorem delete_case_soft_and_idempotent
    (case_id : Z) (u1 u2 : User.t) (env1 env2 : Env) (db : Tables)
    (case : Case.t) :
  active_case db case_id = Some case →
  commit_error env1 = None →
  let first := SimplifiedCaseService.delete_case case_id u1 env1 db in
  let second := SimplifiedCaseService.delete_case case_id u2 env2 first.2 in
  first.1 = (Message "Case deleted successfully", 200)
  ∧ cases first.2
    = <[case_id := Case.set_updated_at (now env1) (Case.set_is_active false case)]>
        (cases db)
  ∧ users first.2 = users db
  ∧ (∃ row : Case.t,
       cases first.2 !! case_id = Some row ∧ Case.is_active row = false)
  ∧ dom (cases first.2) = dom (cases db)
  ∧ second.1 = (Error "Case not found" None, 404)
  ∧ second.2 = first.2.
Proof.
  intros Hcase Hcommit. simpl.
  apply active_case_lookup in Hcase as Hrow. destruct Hrow as [Hrow Hact].
  assert (flush_update (now env1) case (Case.soft_delete case)
          = Case.set_updated_at (now env1) (Case.set_is_active false case)) as Hflush.
  { unfold flush_update, Case.soft_delete. rewrite decide_False; [done|].
    intros Heq. apply (f_equal Case.is_active) in Heq. simpl in Heq. congruence. }
  assert (SimplifiedCaseService.delete_case case_id u1 env1 db
          = ((Message "Case deleted successfully", 200),
             set_cases
               (<[case_id := Case.set_updated_at (now env1)
                               (Case.set_is_active false case)]> (cases db)) db))
    as Hfirst.
  { unfold SimplifiedCaseService.delete_case.
    by rewrite Hcase, Hcommit, Hflush. }
  rewrite Hfirst. simpl.
  assert (active_case
            (set_cases
               (<[case_id := Case.set_updated_at (now env1)
                               (Case.set_is_active false case)]> (cases db)) db)
            case_id = None) as Hgone.
  { unfold active_case. simpl. by rewrite lookup_insert_eq. }
  split_and!; try done.
  - eexists. by rewrite lookup_insert_eq.
  - rewrite dom_insert_L. apply subseteq_union_1_L, singleton_subseteq_l.
    by apply elem_of_dom_2 in Hrow.
  - unfold SimplifiedCaseService.delete_case. by rewrite Hgone.
  - unfold SimplifiedCaseService.delete_case. by rewrite Hgone.
Qed.

Lemma unknown_fields_nil (declared : list string) (d : gmap string json) :
  (∀ k, is_Some (d !! k) → k ∈ declared) → schemas.unknown_fields declared d = [].
Proof.
  intros Hall. unfold schemas.unknown_fields.
  assert (filter (λ kv : string * json, kv.1 ∉ declared) (map_to_list d) = [])
    as ->; [|done].
  destruct (filter _ _) as [|[k v] l] eqn:Hf; [done|]. exfalso.
  assert ((k, v) ∈ filter (λ kv : string * json, kv.1 ∉ declared) (map_to_list d))
    as Hin by (rewrite Hf; left).
  apply list_elem_of_filter in Hin as [Hnot Hin].
  apply elem_of_map_to_list in Hin. apply Hnot, Hall. by exists v.
Qed.

(** What the create schema makes of the [status] key. *)
Lemma CaseCreateSchema_load_status (t : Z) (d : gmap string json)
    (v : schemas.CaseCreateData) :
  schemas.CaseCreateSchema_load t (Mapping d) = inr v →
  schemas.c_status v ∈ Case.VALID_STATUSES
  ∧ (d !! "status" = None ∧ schemas.c_status v = "open"
     ∨ d !! "status" = Some (JStr (schemas.c_status v))).
Proof.
  unfold schemas.CaseCreateSchema_load.
  destruct (schemas.required _ d "title"); try by intros [= ].
  destruct (schemas.with_missing _ _ d "description"); try by intros [= ].
  destruct (schemas.with_missing _ _ d "priority"); try by intros [= ].
  destruct (schemas.with_missing _ _ d "status") as [|s|] eqn:Hs; try by intros [= ].
  destruct (schemas.accepted _); try by intros [= ].
  destruct (schemas.accepted _); try by intros [= ].
  destruct (schemas.unknown_fields _ _); try by intros [= ].
  intros [= <-]. simpl.
  unfold schemas.with_missing in Hs.
  destruct (d !! "status") as [raw|].
  - destruct raw; simpl in Hs; try done.
    unfold schemas.OneOf in Hs. case_bool_decide; [|done].
    by simplify_eq; auto.
  - simplify_eq. split; [by repeat constructor | by left].
Qed.

(** C10, as stated, fails in its last clause: a payload that spells out
    status "open" creates an open case without omitting the field. *)
Lemma create_case_explicit_open :
  let d : gmap string json := {[ "title" := JStr "T"; "status" := JStr "open" ]} in
  d !! "status" = Some (JStr "open")
  ∧ ∃ (cd : CaseDict) (db' : Tables),
      @SimplifiedCaseService.create_case example_library (Mapping d)
         example_user example_env example_db
      = ((CaseBody cd, 201), db')
      ∧ d_status cd = "open".
Proof. split; [reflexivity|]. eexists _, _. split; reflexivity. Qed.

(** C10, amended. [create_case] takes the initial status from the client:
    for each of open, in_progress and closed a valid payload brings a case
    into existence with that status (closed included, which no single
    transition reaches from open). A created case has the status the payload
    supplies, and the default open when the payload omits the field. *)
Theorem create_case_initial_status :
  (∀ (s : string) (u : User.t) (env : Env) (db : Tables),
     s ∈ Case.VALID_STATUSES →
     commit_error env = None →
     ∃ (cd : CaseDict) (row : Case.t),
       SimplifiedCaseService.create_case
         (Mapping {[ "title" := JStr "T"; "status" := JStr s ]}) u env db
       = ((CaseBody cd, 201),
          set_cases (<[next_id (cases db) := row]> (cases db)) db)
       ∧ cases db !! next_id (cases db) = None
       ∧ d_status cd = s
       ∧ Case.status row = s)
  ∧ (∀ c : Case.t, Case.status c = "open" →
       Case.can_transition_to c "closed" = false)
  ∧ (∀ (d : gmap string json) (u : User.t) (env : Env) (db : Tables)
       (b : body) (db' : Tables),
       SimplifiedCaseService.create_case (Mapping d) u env db = ((b, 201), db') →
       ∃ (id : Z) (row : Case.t),
         cases db !! id = None
         ∧ cases db' = <[id := row]> (cases db)
         ∧ Case.status row ∈ Case.VALID_STATUSES
         ∧ (d !! "status" = None ∧ Case.status row = "open"
            ∨ d !! "status" = Some (JStr (Case.status row)))).
Proof.
  split_and!.
  - intros s u env db Hs Hcommit. eexists _, _.
    unfold SimplifiedCaseService.create_case.
    assert (schemas.CaseCreateSchema_load (now env)
              (Mapping {[ "title" := JStr "T"; "status" := JStr s ]})
            = inr (schemas.mkCreate "T" "" "medium" s None None)) as ->.
    { unfold schemas.CaseCreateSchema_load, schemas.required,
        schemas.with_missing, schemas.optional.
      rewrite unknown_fields_nil.
      - assert (schemas.Str [schemas.OneOf ["open"; "in_progress"; "closed"]] (JStr s)
                = schemas.Loaded s) as Hstr.
        { simpl. unfold schemas.OneOf. by rewrite bool_decide_eq_true_2. }
        simplify_map_eq. by rewrite Hstr.
      - intros k [x Hk]. unfold schemas.case_fields.
        apply lookup_insert_Some in Hk as [[<- _]|[_ Hk]]; [by repeat constructor|].
        apply lookup_singleton_Some in Hk as [<- _]. by repeat constructor. }
    simpl. rewrite Hcommit. split_and!; [reflexivity | apply next_id_fresh | done..].
  - intros c Hs. apply not_true_is_false. rewrite can_transition_to_spec, Hs.
    intros [[_ ?]|[? _]]; discriminate.
  - intros d u env db b db'. unfold SimplifiedCaseService.create_case.
    destruct (schemas.CaseCreateSchema_load _ _) as [e|v] eqn:Hload; [by intros [= ]|].
    apply CaseCreateSchema_load_status in Hload.
    destruct (truthy_int _) as [a|].
    + destruct (users db !! a) as [au|]; [|by intros [= ]].
      destruct (User.is_active au); [|by intros [= ]].
      destruct (commit_error env); [by intros [= ]|].
      intros [= _ <-]. eexists _, _. split; [apply next_id_fresh|]. done.
    + destruct (commit_error env); [by intros [= ]|].
      intros [= _ <-]. eexists _, _. split; [apply next_id_fresh|]. done.
Qed.

(** *** Access scoping and the listing *)

Lemma get_accessible_cases_query_spec (u : User.t) (db : Tables) (id : Z)
    (c : Case.t) :
  (id, c) ∈ authorization.get_accessible_cases_query u db ↔
  cases db !! id = Some c
  ∧ Case.is_active c = true
  ∧ (User.role u = "admin"
     ∨ Case.created_by c = User.id u
     ∨ Case.assigned_to c = Some (User.id u)).
Proof.
  unfold authorization.get_accessible_cases_query. case_decide.
  - rewrite list_elem_of_filter, elem_of_map_to_list. simpl. tauto.
  - rewrite !list_elem_of_filter, elem_of_map_to_list. simpl. tauto.
Qed.

Lemma get_accessible_cases_query_NoDup (u : User.t) (db : Tables) :
  NoDup (authorization.get_accessible_cases_query u db).
Proof.
  unfold authorization.get_accessible_cases_query.
  case_decide; repeat apply NoDup_filter; apply NoDup_map_to_list.
Qed.

Lemma status_filter_sublist qp (l : list (Z * Case.t)) :
  SimplifiedCaseService.status_filter qp l `sublist_of` l.
Proof.
  unfold SimplifiedCaseService.status_filter.
  repeat case_match; try done; apply sublist_filter.
Qed.

Lemma priority_filter_sublist qp (l : list (Z * Case.t)) :
  SimplifiedCaseService.priority_filter qp l `sublist_of` l.
Proof.
  unfold SimplifiedCaseService.priority_filter.
  repeat case_match; try done; apply sublist_filter.
Qed.

Lemma search_filter_sublist qp (l : list (Z * Case.t)) :
  SimplifiedCaseService.search_filter qp l `sublist_of` l.
Proof.
  unfold SimplifiedCaseService.search_filter.
  repeat case_match; try done; apply sublist_filter.
Qed.

(** The rows the three filters keep are rows of the list they are given. *)
Lemma filters_sublist qp (l : list (Z * Case.t)) :
  SimplifiedCaseService.search_filter qp
    (SimplifiedCaseService.priority_filter qp
       (SimplifiedCaseService.status_filter qp l)) `sublist_of` l.
Proof.
  etrans; [apply search_filter_sublist|].
  etrans; [apply priority_filter_sublist|]. apply status_filter_sublist.
Qed.

Lemma elem_of_paginate {A} (rows : list A) (page per_page : Z) (x : A) :
  x ∈ (paginate rows page per_page).1 → x ∈ rows.
Proof.
  unfold paginate. simpl. intros Hin.
  eapply elem_of_sublist; [eapply elem_of_sublist; [exact Hin|]|].
  - apply sublist_take.
  - apply sublist_drop.
Qed.

(** C6. The scoping query selects exactly the active rows when the actor is
    an administrator, and the active rows the actor owns or is assigned
    otherwise. [get_cases] starts from that selection: the status, priority
    and search filters, the ordering and the pagination all work on it, so
    every returned case is a scoped row, [total] counts the scoped rows that
    pass the filters, and [pages], [has_next] and [has_prev] follow from that
    count. *)
Theorem get_cases_is_scoped :
  (∀ (u : User.t) (db : Tables) (id : Z) (c : Case.t),
     (id, c) ∈ authorization.get_accessible_cases_query u db ↔
     cases db !! id = Some c
     ∧ Case.is_active c = true
     ∧ (User.role u = "admin"
        ∨ Case.created_by c = User.id u
        ∨ Case.assigned_to c = Some (User.id u)))
  ∧ (∀ (u : User.t) (db : Tables),
       NoDup (authorization.get_accessible_cases_query u db))
  ∧ (∀ (query_params : gmap string string) (u : User.t) (env : Env) (db : Tables),
       query_error env = None →
       let scoped := authorization.get_accessible_cases_query u db in
       let matching :=
         SimplifiedCaseService.search_filter query_params
           (SimplifiedCaseService.priority_filter query_params
              (SimplifiedCaseService.status_filter query_params scoped)) in
       let page := SimplifiedCaseService.parse_page query_params in
       let per_page := SimplifiedCaseService.parse_per_page query_params in
       let total := Z.of_nat (length matching) in
       let pages :=
         if decide (total = 0) then 0 else (total + per_page - 1) / per_page in
       ∃ rows : list (Z * Case.t),
         SimplifiedCaseService.get_cases query_params u env db
         = (CaseList ((λ r, Case_to_dict db r.1 r.2) <$> rows)
              (mkPagination page per_page total pages
                 (bool_decide (page < pages)) (bool_decide (1 < page))),
            200)
         ∧ rows
           = take (Z.to_nat per_page)
               (drop (Z.to_nat ((page - 1) * per_page))
                  (SimplifiedCaseService.order_by_created_at_desc matching))
         ∧ (∀ r, r ∈ rows → r ∈ matching ∧ r ∈ scoped)
         ∧ matching `sublist_of` scoped
         ∧ total ≤ Z.of_nat (length scoped)
         ∧ Z.of_nat (length rows) ≤ per_page).
Proof.
  split_and!.
  - apply get_accessible_cases_query_spec.
  - apply get_accessible_cases_query_NoDup.
  - intros qp u env db Herr. simpl.
    pose proof (filters_sublist qp
                  (authorization.get_accessible_cases_query u db)) as Hsub.
    eexists. split_and!.
    + unfold SimplifiedCaseService.get_cases. rewrite Herr.
      unfold paginate, SimplifiedCaseService.order_by_created_at_desc. simpl.
      rewrite (Permutation_length (merge_sort_Permutation _ _)). reflexivity.
    + reflexivity.
    + intros r Hr.
      apply (elem_of_paginate _ (SimplifiedCaseService.parse_page qp)
               (SimplifiedCaseService.parse_per_page qp)) in Hr.
      unfold SimplifiedCaseService.order_by_created_at_desc in Hr.
      rewrite merge_sort_Permutation in Hr.
      split; [done|]. by eapply elem_of_sublist.
    + done.
    + apply sublist_length in Hsub. lia.
    + rewrite length_take.
      assert (1 ≤ SimplifiedCaseService.parse_per_page qp) as Hpp.
      { unfold SimplifiedCaseService.parse_per_page. repeat case_match; lia. }
      lia.
Qed.

End service_properties.

(** User 2 deletes case 1 of the example tables, then the administrator
    asks for the same delete again. *)
Lemma delete_case_soft_and_idempotent_witness :
  let first :=
    SimplifiedCaseService.delete_case 1 example_user example_env example_db in
  let second :=
    SimplifiedCaseService.delete_case 1 example_admin example_env first.2 in
  first.1 = (Message "Case deleted successfully", 200)
  ∧ cases first.2
    = <[1 := Case.set_updated_at 100 (Case.set_is_active false example_open_case)]>
        (cases example_db)
  ∧ users first.2 = users example_db
  ∧ (∃ row : Case.t, cases first.2 !! 1 = Some row ∧ Case.is_active row = false)
  ∧ dom (cases first.2) = dom (cases example_db)
  ∧ second.1 = (Error "Case not found" None, 404)
  ∧ second.2 = first.2.
Proof.
  exact (delete_case_soft_and_idempotent 1 example_user example_admin
           example_env example_env example_db example_open_case
           eq_refl eq_refl).
Defined.

(** User 2 asks to close the open case 1 directly: 400, the legal next
    statuses are in_progress alone, and the case stays open. *)
Lemma update_case_rejects_illegal_transition_witness :
  let data := Mapping {[ "status" := JStr "closed" ]} in
  @SimplifiedCaseService.update_case example_library 1 data example_user
     example_env example_db
  = ((InvalidTransition "Invalid status transition from open to closed"
        ["in_progress"], 400),
     example_db)
  ∧ (∀ s : string,
       s ∈ ["in_progress"] ↔ Case.can_transition_to example_open_case s = true)
  ∧ active_case
      (@SimplifiedCaseService.update_case example_library 1 data example_user
         example_env example_db).2 1
    = Some example_open_case.
Proof.
  exact (@update_case_rejects_illegal_transition example_library 1
           (Mapping {[ "status" := JStr "closed" ]}) example_user example_env
           example_db example_open_case
           (schemas.mkUpdate None None (Some "closed") None None None)
           "closed" eq_refl eq_refl eq_refl eq_refl).
Defined.

(** *** The audit sink *)

Lemma flush_update_same (t : Z) (c : Case.t) : flush_update t c c = c.
Proof. unfold flush_update. by rewrite decide_True. Qed.

(** A flush writes no case row the session has not touched. *)
Lemma flush_cases_clean (t : Z) (old new : Tables) :
  cases new = cases old → cases (flush t old new) = cases old.
Proof.
  intros Heq. unfold flush. simpl. rewrite Heq. apply map_eq. intros i.
  rewrite map_lookup_imap. destruct (cases old !! i) as [c|]; simpl; [|done].
  by rewrite flush_update_same.
Qed.

Ltac run_M :=
  unfold AuditLogger.log_action, AuditLogger.audit_logger_info, try_except,
    session_commit, session_rollback, session_add_audit, print, next_fault,
    raise, get_world, modify_world, mbind, M_bind, mret, M_ret;
  simpl.

(** Whatever the session does, [log_action] returns. *)
Lemma log_action_returns (user_id : option Z) (action resource_type : string)
    (resource_id : option Z) (result details : string) (w : World) :
  (AuditLogger.log_action user_id action resource_type resource_id result
     details w).1 = Returned tt.
Proof.
  run_M. destruct (faults w) as [|[e|] [|[e'|] rest]]; reflexivity.
Qed.

(** After [log_action], the committed [users] and [cases] are those the
    session held when it was called if the audit row went in, and those
    committed before if it did not. *)
Lemma log_action_committed (user_id : option Z) (action resource_type : string)
    (resource_id : option Z) (result details : string) (w : World) :
  let w' := (AuditLogger.log_action user_id action resource_type resource_id
               result details w).2 in
  match faults w with
  | Some e :: rest =>
    committed w' = committed w
    ∧ stdout w' = stdout w ++ ["Audit logging failed: " +:+ e]
    ∧ faults w' = tail rest
    ∧ (head rest = None ∨ head rest = Some None → working w' = committed w)
  | fs =>
    users (committed w') = users (working w)
    ∧ audit_logs (committed w')
      = audit_logs (working w)
        ++ [AuditLog.mk user_id action resource_type resource_id result details
              (req ← request w; remote_addr req)
              (req ← request w; header_User_Agent req) (clock w)]
    ∧ (cases (working w) = cases (committed w) →
       cases (committed w') = cases (committed w))
    ∧ working w' = committed w'
    ∧ faults w' = tail fs
    ∧ stdout w' = stdout w
  end.
Proof.
  run_M. destruct (faults w) as [|[e|] [|[e'|] rest]] eqn:Hf; simpl;
    split_and!; try done; try (by intros [|]); try apply flush_cases_clean.
Qed.

(** With a session that holds no pending change, [log_action] leaves the
    committed [users] and [cases] alone, whether the audit row goes in or
    not. *)
Lemma log_action_keeps_primary (user_id : option Z) (action resource_type : string)
    (resource_id : option Z) (result details : string) (w : World) :
  working w = committed w →
  let w' := (AuditLogger.log_action user_id action resource_type resource_id
               result details w).2 in
  cases (committed w') = cases (committed w)
  ∧ users (committed w') = users (committed w).
Proof.
  intros Hclean.
  pose proof (log_action_committed user_id action resource_type resource_id
                result details w) as Hc.
  simpl in *. destruct (faults w) as [|[e|] rest].
  - destruct Hc as (Hu & _ & Hcases & _). rewrite Hu, Hclean.
    split; [apply Hcases; by rewrite Hclean | done].
  - destruct Hc as (-> & _). done.
  - destruct Hc as (Hu & _ & Hcases & _). rewrite Hu, Hclean.
    split; [apply Hcases; by rewrite Hclean | done].
Qed.

Ltac run_delete :=
  unfold CaseService.delete_case, CaseService.query_active_case,
    CaseService.store_case, try_except, session_commit, session_rollback,
    next_fault, raise, get_world, modify_world, mbind, M_bind, mret, M_ret;
  simpl.

(** Meets the [log_action] call the goal is stuck on: it returns, and keeps
    the committed [cases] and [users] of a session without pending change. *)
Ltac step_log_action Hkeep :=
  match goal with
  | |- context [AuditLogger.log_action ?a ?b ?c ?d ?e ?f ?w1] =>
    let Hret := fresh "Hret" in
    pose proof (log_action_returns a b c d e f w1) as Hret;
    pose proof (log_action_keeps_primary a b c d e f w1) as Hkeep;
    destruct (AuditLogger.log_action a b c d e f w1) as [[[]|?] ?];
    [clear Hret | discriminate Hret]
  end.

(** C9. [AuditLogger.log_action] returns to its caller on every input and
    whatever the session does. When the commit of the audit row raises, the
    error is printed, the session is rolled back (a failing rollback is
    swallowed too) and nothing is committed. The primary operation it
    accompanies is not touched: the audited [delete_case] gives the same
    answer, and commits the same [cases] and [users], whether or not the
    audit writes that follow its own commit fail. *)
Theorem log_action_never_raises :
  (∀ (user_id : option Z) (action resource_type : string)
     (resource_id : option Z) (result details : string) (w : World),
     (AuditLogger.log_action user_id action resource_type resource_id result
        details w).1 = Returned tt)
  ∧ (∀ (user_id : option Z) (action resource_type : string)
       (resource_id : option Z) (result details : string) (w : World)
       (e : string) (rest : list (option string)),
       faults w = Some e :: rest →
       let w' := (AuditLogger.log_action user_id action resource_type
                    resource_id result details w).2 in
       committed w' = committed w
       ∧ stdout w' = stdout w ++ ["Audit logging failed: " +:+ e]
       ∧ (head rest = None ∨ head rest = Some None → working w' = committed w))
  ∧ (∀ (user_id : option Z) (action resource_type : string)
       (resource_id : option Z) (result details : string) (w : World),
       working w = committed w →
       let w' := (AuditLogger.log_action user_id action resource_type
                    resource_id result details w).2 in
       cases (committed w') = cases (committed w)
       ∧ users (committed w') = users (committed w))
  ∧ (∀ (case_id : Z) (u : User.t) (w : World),
       working w = committed w →
       active_case (working w) case_id = None →
       let r := CaseService.delete_case case_id u w in
       r.1 = Returned (Error "Case not found" None, 404)
       ∧ cases (committed r.2) = cases (committed w)
       ∧ users (committed r.2) = users (committed w))
  ∧ (∀ (case_id : Z) (u : User.t) (w : World) (case : Case.t)
       (audit_faults : list (option string)),
       active_case (working w) case_id = Some case →
       RBACManager.can_delete_case u case = true →
       faults w = None :: audit_faults →
       let r := CaseService.delete_case case_id u w in
       r.1 = Returned (Message "Case deleted successfully", 200)
       ∧ cases (committed r.2)
         = cases (flush (clock w) (committed w)
                    (set_cases (<[case_id := Case.soft_delete case]>
                                  (cases (working w))) (working w)))
       ∧ users (committed r.2) = users (working w))
  ∧ (∀ (case_id : Z) (u : User.t) (w : World) (case : Case.t),
       working w = committed w →
       active_case (working w) case_id = Some case →
       RBACManager.can_delete_case u case = false →
       let r := CaseService.delete_case case_id u w in
       r.1 = Returned
               (Error "Insufficient permissions to delete this case" None, 403)
       ∧ cases (committed r.2) = cases (committed w)
       ∧ users (committed r.2) = users (committed w))
  ∧ (∀ (case_id : Z) (u : User.t) (w : World) (case : Case.t) (e : string)
       (audit_faults : list (option string)),
       active_case (working w) case_id = Some case →
       RBACManager.can_delete_case u case = true →
       faults w = Some e :: None :: audit_faults →
       let r := CaseService.delete_case case_id u w in
       r.1 = Returned
               (Error "Failed to delete case" (Some (ExceptionDetails e)), 500)
       ∧ cases (committed r.2) = cases (committed w)
       ∧ users (committed r.2) = users (committed w)).
Proof.
  split_and!.
  - apply log_action_returns.
  - intros user_id action resource_type resource_id result details w e rest Hf.
    pose proof (log_action_committed user_id action resource_type resource_id
                  result details w) as Hc.
    simpl in *. rewrite Hf in Hc. tauto.
  - apply log_action_keeps_primary.
  - intros case_id u w Hclean Hnone. run_delete. rewrite Hnone.
    step_log_action Hkeep. simpl in *. split; [done|]. by apply Hkeep.
  - intros case_id u w case audit_faults Hcase Hcan Hf. run_delete.
    rewrite Hcase, Hcan. simpl. rewrite Hf. simpl.
    step_log_action Hkeep. simpl in *. split; [done|]. by apply Hkeep.
  - intros case_id u w case Hclean Hcase Hcan. run_delete.
    rewrite Hcase, Hcan. simpl.
    step_log_action Hkeep. simpl in *. split; [done|]. by apply Hkeep.
  - intros case_id u w case e audit_faults Hcase Hcan Hf. run_delete.
    rewrite Hcase, Hcan. simpl. rewrite Hf. simpl.
    step_log_action Hkeep. simpl in *. split; [done|]. by apply Hkeep.
Qed.

(** *** The properties at concrete inputs *)

(** The assignee of an open case may read it and may not write it; an
    administrator may write a closed case. *)
Lemma authorize_case_access_rule_witness :
  (authorization.authorize_case_access (Some example_open_case) example_other
     "read").1 = true
  ∧ (authorization.authorize_case_access (Some example_open_case) example_other
       "write").1 = false
  ∧ (authorization.authorize_case_access (Some example_closed_case) example_admin
       "write").1 = true.
Proof.
  destruct (authorize_case_access_rule example_open_case example_other)
    as [_ Huser].
  destruct (Huser ltac:(discriminate)) as (Hread & _ & _ & Hassignee).
  destruct (authorize_case_access_rule example_closed_case example_admin)
    as [Hadmin _].
  split_and!.
  - apply Hread. right. reflexivity.
  - apply Hassignee; [reflexivity | discriminate].
  - apply Hadmin; reflexivity.
Defined.

(** A user may edit own cases and may not assign cases. *)
Lemma has_permission_is_table_membership_witness :
  RBACManager.has_permission (Some example_user) EDIT_OWN_CASES None = true
  ∧ RBACManager.has_permission (Some example_user) ASSIGN_CASES None ≠ true
  ∧ RBACManager.get_user_permissions
      (Some (User.mk 9 "zed" "zed@example.org" "auditor" true)) = [].
Proof.
  destruct has_permission_is_table_membership as (Htable & _ & Hunknown & _).
  pose proof (Htable USER
                [ VIEW_OWN_CASES; VIEW_ASSIGNED_CASES; CREATE_CASE;
                  EDIT_OWN_CASES; DELETE_OWN_CASES; UPDATE_STATUS_OWN;
                  UPDATE_STATUS_ASSIGNED ]) as Huser.
  split_and!.
  - apply (Huser EDIT_OWN_CASES example_user); try reflexivity.
    + right. left.
    + do 3 right. left.
  - intros Hyes.
    apply (Huser ASSIGN_CASES example_user) in Hyes; try reflexivity.
    + repeat (apply elem_of_cons in Hyes as [Hyes|Hyes]; [discriminate|]).
      by apply elem_of_nil in Hyes.
    + right. left.
  - apply (Hunknown (User.mk 9 "zed" "zed@example.org" "auditor" true)).
    simpl. intros Hin.
    repeat (apply elem_of_cons in Hin as [Hin|Hin]; [discriminate|]).
    by apply elem_of_nil in Hin.
Defined.

(** An open case cannot be closed directly, and a closed case goes nowhere. *)
Lemma can_transition_to_state_machine_witness :
  Case.can_transition_to example_open_case "closed" = false
  ∧ Case.can_transition_to example_closed_case "open" = false
  ∧ Case.can_transition_to example_open_case "in_progress" = true.
Proof.
  destruct can_transition_to_state_machine as (_ & _ & Hspec & Hskip & Hterm & _).
  split_and!.
  - apply Hskip. reflexivity.
  - apply Hterm. reflexivity.
  - apply Hspec. left. split; reflexivity.
Defined.

(** User 2 lists the example tables without filters: the answer is built
    from the one case user 2 owns. *)
Lemma get_cases_is_scoped_witness :
  let scoped := authorization.get_accessible_cases_query example_user example_db in
  ∃ rows : list (Z * Case.t),
    @SimplifiedCaseService.get_cases example_library ∅ example_user
       example_env example_db
    = (CaseList ((λ r, Case_to_dict example_db r.1 r.2) <$> rows)
         (mkPagination 1 10 1 1 false false), 200)
    ∧ rows = [(1, example_open_case)]
    ∧ (∀ r, r ∈ rows → r ∈ scoped).
Proof.
  destruct (@get_cases_is_scoped example_library) as (_ & _ & Hlist).
  destruct (Hlist ∅ example_user example_env example_db eq_refl)
    as (rows & Hresp & Hrows & Hin & _).
  exists rows. split_and!.
  - exact Hresp.
  - exact Hrows.
  - intros r Hr. by apply Hin.
Defined.

(** User 2 creates a case: the row is new and user 2 owns it. *)
Lemma created_by_is_immutable_witness :
  let data := Mapping {[ "title" := JStr "Scanner" ]} in
  let r := @SimplifiedCaseService.create_case example_library data example_user
             example_env example_db in
  r.1.2 = 201
  ∧ ∃ (id : Z) (case : Case.t),
      cases example_db !! id = None
      ∧ cases r.2 = <[id := case]> (cases example_db)
      ∧ Case.created_by case = 2.
Proof.
  split; [reflexivity|].
  destruct (@created_by_is_immutable example_library) as [Hcreate _].
  exact (Hcreate (Mapping {[ "title" := JStr "Scanner" ]}) example_user
           example_env example_db _ _ eq_refl).
Defined.

(** The audit store is down: [log_action] returns, prints and commits
    nothing, and the delete it accompanies answers 200 all the same. *)
Lemma log_action_never_raises_witness :
  let w := example_world [Some "audit store down"] in
  let w' := (AuditLogger.log_action (Some 2) "DELETE_CASE" "CASE" (Some 1)
               "SUCCESS" "" w).2 in
  (committed w' = committed w
   ∧ stdout w' = ["Audit logging failed: audit store down"]
   ∧ working w' = committed w)
  ∧ (CaseService.delete_case 1 example_user
       (example_world [None; Some "audit store down"])).1
    = Returned (Message "Case deleted successfully", 200).
Proof.
  destruct log_action_never_raises as (_ & Hfail & _ & _ & Hdelete & _).
  split.
  - destruct (Hfail (Some 2) "DELETE_CASE" "CASE" (Some 1) "SUCCESS" ""
                (example_world [Some "audit store down"]) "audit store down" []
                eq_refl) as (Hc & Hout & Hroll).
    split_and!; [exact Hc | exact Hout | apply Hroll; by left].
  - apply (Hdelete 1 example_user
             (example_world [None; Some "audit store down"])
             example_open_case [Some "audit store down"]); reflexivity.
Defined.

(** A payload with status closed creates a closed case. *)
Lemma create_case_initial_status_witness :
  let d : gmap string json := {[ "title" := JStr "T"; "status" := JStr "closed" ]} in
  ∃ (cd : CaseDict) (row : Case.t),
    @SimplifiedCaseService.create_case example_library (Mapping d) example_user
       example_env example_db
    = ((CaseBody cd, 201),
       set_cases (<[next_id (cases example_db) := row]> (cases example_db))
         example_db)
    ∧ cases example_db !! next_id (cases example_db) = None
    ∧ d_status cd = "closed"
    ∧ Case.status row = "closed".
Proof.
  destruct (@create_case_initial_status example_library) as (Hsome & _).
  apply (Hsome "closed" example_user example_env example_db);
    [do 2 right; left | reflexivity].
Defined.

(** *** Further properties of the services and the two rule sets *)

Section more_service_properties.
Context `{Library}.

(** What the create schema makes of an absent [assigned_to] key. *)
Lemma CaseCreateSchema_load_no_assignee (t : Z) (d : gmap string json)
    (v : schemas.CaseCreateData) :
  d !! "assigned_to" = None →
  schemas.CaseCreateSchema_load t (Mapping d) = inr v →
  schemas.c_assigned_to v = None.
Proof.
  intros Hno. unfold schemas.CaseCreateSchema_load.
  destruct (schemas.required _ d "title"); try by intros [= ].
  destruct (schemas.with_missing _ _ d "description"); try by intros [= ].
  destruct (schemas.with_missing _ _ d "priority"); try by intros [= ].
  destruct (schemas.with_missing _ _ d "status"); try by intros [= ].
  destruct (schemas.accepted (schemas.optional _ d "due_date")); try by intros [= ].
  unfold schemas.optional at 1. rewrite Hno. simpl.
  destruct (schemas.unknown_fields _ _); try by intros [= ].
  by intros [= <-].
Qed.

(** A case created without an assignee is assigned to its creator. *)
Theorem create_case_auto_assigns_creator (d : gmap string json) (u : User.t)
    (env : Env) (db : Tables) (b : body) (db' : Tables) :
  d !! "assigned_to" = None →
  SimplifiedCaseService.create_case (Mapping d) u env db = ((b, 201), db') →
  ∃ (id : Z) (row : Case.t),
    cases db !! id = None
    ∧ cases db' = <[id := row]> (cases db)
    ∧ Case.created_by row = User.id u
    ∧ Case.assigned_to row = Some (User.id u)
    ∧ Case.is_active row = true.
Proof.
  intros Hno. unfold SimplifiedCaseService.create_case.
  destruct (schemas.CaseCreateSchema_load _ _) as [e|v] eqn:Hload; [by intros [= ]|].
  rewrite (CaseCreateSchema_load_no_assignee _ _ _ Hno Hload). simpl.
  destruct (commit_error env); [by intros [= ]|].
  intros [= _ <-]. eexists _, _. split; [apply next_id_fresh|]. done.
Qed.

(** A legal status change that names no assignee is committed: the answer
    is 200 and the row carries the new status and its old owner. *)
Theorem update_case_commits_legal_transition
    (case_id : Z) (data : payload) (u : User.t) (env : Env) (db : Tables)
    (case : Case.t) (v : schemas.CaseUpdateData) (new_status : string) :
  active_case db case_id = Some case →
  schemas.CaseUpdateSchema_load (now env) data = inr v →
  schemas.u_status v = Some new_status →
  Case.can_transition_to case new_status = true →
  schemas.u_assigned_to v = None →
  commit_error env = None →
  ∃ (cd : CaseDict) (row : Case.t),
    (SimplifiedCaseService.update_case case_id data u env db).1 = (CaseBody cd, 200)
    ∧ cases (SimplifiedCaseService.update_case case_id data u env db).2 !! case_id
      = Some row
    ∧ Case.status row = new_status
    ∧ d_status cd = new_status
    ∧ Case.created_by row = Case.created_by case.
Proof.
  intros Hcase Hload Hst Hok Hno Hcommit.
  unfold SimplifiedCaseService.update_case.
  rewrite Hcase, Hload, Hst, Hok, Hno, Hcommit. simpl.
  eexists _, _. split; [reflexivity|]. rewrite lookup_insert_eq.
  split; [reflexivity|].
  assert (Case.status
            (flush_update (now env) case
               (SimplifiedCaseService.set_fields v
                  (Case.set_status new_status case))) = new_status) as Hs.
  { assert (∀ c, Case.status (SimplifiedCaseService.set_fields v c)
                 = Case.status c) as Hkeep.
    { intros c. unfold SimplifiedCaseService.set_fields.
      by destruct (schemas.u_title v), (schemas.u_description v),
         (schemas.u_priority v), (schemas.u_due_date v),
         (schemas.u_assigned_to v). }
    unfold flush_update. case_decide as Heq.
    - rewrite <- Heq. by rewrite Hkeep.
    - simpl. by rewrite Hkeep. }
  split_and!; [exact Hs | exact Hs |].
  apply created_by_flush_update. by rewrite created_by_set_fields.
Qed.

End more_service_properties.

(** User 2 creates a case and names no assignee. *)
Lemma create_case_auto_assigns_creator_witness :
  let r := @SimplifiedCaseService.create_case example_library
             (Mapping {[ "title" := JStr "Scanner" ]}) example_user example_env
             example_db in
  ∃ (id : Z) (row : Case.t),
    cases example_db !! id = None
    ∧ cases r.2 = <[id := row]> (cases example_db)
    ∧ Case.created_by row = 2
    ∧ Case.assigned_to row = Some 2
    ∧ Case.is_active row = true.
Proof.
  exact (@create_case_auto_assigns_creator example_library
           {[ "title" := JStr "Scanner" ]} example_user example_env example_db
           _ _ eq_refl eq_refl).
Defined.

(** User 2 moves the open case 1 to in_progress. *)
Lemma update_case_commits_legal_transition_witness :
  let r := @SimplifiedCaseService.update_case example_library 1
             (Mapping {[ "status" := JStr "in_progress" ]}) example_user
             example_env example_db in
  ∃ (cd : CaseDict) (row : Case.t),
    r.1 = (CaseBody cd, 200)
    ∧ cases r.2 !! 1 = Some row
    ∧ Case.status row = "in_progress"
    ∧ d_status cd = "in_progress"
    ∧ Case.created_by row = 2.
Proof.
  exact (@update_case_commits_legal_transition example_library 1
           (Mapping {[ "status" := JStr "in_progress" ]}) example_user
           example_env example_db example_open_case
           (schemas.mkUpdate None None (Some "in_progress") None None None)
           "in_progress" eq_refl eq_refl eq_refl eq_refl eq_refl eq_refl).
Defined.

(** The convenience checks of [authorization.py] are the coarse rule at
    write and delete. *)
Theorem can_modify_case_is_write_rule (case : Case.t) (u : User.t) :
  authorization.can_modify_case case u
  = (authorization.authorize_case_access (Some case) u "write").1
  ∧ authorization.can_delete_case case u
    = (authorization.authorize_case_access (Some case) u "delete").1.
Proof.
  unfold authorization.can_modify_case, authorization.can_delete_case,
    authorization.authorize_case_access.
  destruct (decide (User.role u = "admin")); [done|]. simpl.
  case_bool_decide; simpl; [|done].
  destruct (decide (Case.status case = "closed")).
  - by rewrite bool_decide_eq_true_2.
  - by rewrite bool_decide_eq_false_2.
Qed.

(** The composite checks of [RBACManager] for the two roles in use: an
    active administrator passes all four on every case; an active user
    views and updates the status of cases owned or assigned, and edits and
    deletes owned cases only; an inactive actor passes none. *)
Theorem composite_checks_by_role (u : User.t) (c : Case.t) :
  let owner := bool_decide (Case.created_by c = User.id u) in
  let assignee := bool_decide (Case.assigned_to c = Some (User.id u)) in
  (User.is_active u = true → User.role u = "admin" →
     RBACManager.can_view_case u c = true
     ∧ RBACManager.can_edit_case u c = true
     ∧ RBACManager.can_delete_case u c = true
     ∧ RBACManager.can_update_case_status u c = true)
  ∧ (User.is_active u = true → User.role u = "user" →
       RBACManager.can_view_case u c = owner || assignee
       ∧ RBACManager.can_edit_case u c = owner
       ∧ RBACManager.can_delete_case u c = owner
       ∧ RBACManager.can_update_case_status u c = owner || assignee)
  ∧ (User.is_active u = false →
       RBACManager.can_view_case u c = false
       ∧ RBACManager.can_edit_case u c = false
       ∧ RBACManager.can_delete_case u c = false
       ∧ RBACManager.can_update_case_status u c = false).
Proof.
  unfold RBACManager.can_view_case, RBACManager.can_edit_case,
    RBACManager.can_delete_case, RBACManager.can_update_case_status,
    RBACManager.has_permission.
  split_and!.
  - intros -> ->. done.
  - intros -> ->. simpl. by do 2 case_bool_decide.
  - intros ->. done.
Qed.

(** The assignee views but does not edit; the owner and the administrator
    delete. *)
Lemma composite_checks_by_role_witness :
  RBACManager.can_view_case example_other example_open_case = true
  ∧ RBACManager.can_edit_case example_other example_open_case = false
  ∧ RBACManager.can_delete_case example_user example_open_case = true
  ∧ RBACManager.can_delete_case example_admin example_closed_case = true.
Proof.
  destruct (composite_checks_by_role example_other example_open_case)
    as (_ & Hother & _).
  destruct (Hother eq_refl eq_refl) as (Hview & Hedit & _).
  destruct (composite_checks_by_role example_user example_open_case)
    as (_ & Huser & _).
  destruct (Huser eq_refl eq_refl) as (_ & _ & Hdel & _).
  destruct (composite_checks_by_role example_admin example_closed_case)
    as (Hadmin & _).
  destruct (Hadmin eq_refl eq_refl) as (_ & _ & Hadel & _).
  split_and!; [exact Hview | exact Hedit | exact Hdel | exact Hadel].
Defined.

(** [get_case] does not see a soft-deleted case: after a committed
    [delete_case] it answers 404. *)
Theorem get_case_after_delete (case_id : Z) (u1 u2 : User.t) (env : Env)
    (db : Tables) (case : Case.t) :
  active_case db case_id = Some case →
  commit_error env = None →
  SimplifiedCaseService.get_case case_id u1 db
  = (CaseBody (Case_to_dict db case_id case), 200)
  ∧ SimplifiedCaseService.get_case case_id u1
      (SimplifiedCaseService.delete_case case_id u2 env db).2
    = (Error "Case not found" None, 404).
Proof.
  intros Hcase Hcommit.
  unfold SimplifiedCaseService.get_case, SimplifiedCaseService.delete_case.
  rewrite Hcase, Hcommit. split; [done|].
  unfold active_case. simpl. rewrite lookup_insert_eq.
  unfold flush_update, Case.soft_delete. case_decide as Heq; [|done].
  apply (f_equal Case.is_active) in Heq. simpl in Heq. by rewrite <- Heq.
Qed.

(** Case 1 is readable, and gone once user 2 has deleted it. *)
Lemma get_case_after_delete_witness :
  SimplifiedCaseService.get_case 1 example_other example_db
  = (CaseBody (Case_to_dict example_db 1 example_open_case), 200)
  ∧ SimplifiedCaseService.get_case 1 example_other
      (SimplifiedCaseService.delete_case 1 example_user example_env example_db).2
    = (Error "Case not found" None, 404).
Proof.
  exact (get_case_after_delete 1 example_other example_user example_env
           example_db example_open_case eq_refl eq_refl).
Defined.

(** *** The authentication guard *)

Section guard_properties.
Context `{Library}.

(** [auth_required] turns an inactive actor away with 401 before the
    guarded function runs, whatever that function is (so also when it is a
    route wrapped in [require_case_access]); a revoked token is turned away
    the same way. *)
Theorem auth_required_denies_inactive (admin_only : bool)
    (f : User.t → M response) (token : Token) (w : World) :
  (jti token ∈ blacklisted_tokens w →
     (auth.auth_required admin_only f token w).1
     = Returned (Error "Token has been revoked" None, 401))
  ∧ (∀ (n : Z) (u : User.t),
       jti token ∉ blacklisted_tokens w →
       int_of_str (identity token) = Some n →
       users (working w) !! n = Some u →
       User.is_active u = false →
       (auth.auth_required admin_only f token w).1
       = Returned (Error "User not found or inactive" None, 401))
  ∧ (∀ (n : Z) (u : User.t),
       jti token ∉ blacklisted_tokens w →
       int_of_str (identity token) = Some n →
       users (working w) !! n = Some u →
       User.is_active u = true →
       admin_only = false →
       (∀ w', ∃ r w'', f u w' = (Returned r, w'')) →
       auth.auth_required admin_only f token w = f u w).
Proof.
  unfold auth.auth_required, try_except, get_world, raise, mbind, M_bind,
    mret, M_ret. simpl.
  split_and!.
  - intros Hin. rewrite bool_decide_eq_true_2 by done.
    step_log_action Hkeep. done.
  - intros n u Hnot Hid Hu Hinactive.
    rewrite bool_decide_eq_false_2 by done. rewrite Hid, Hu, Hinactive. simpl.
    step_log_action Hkeep. done.
  - intros n u Hnot Hid Hu Hactive -> Hf.
    rewrite bool_decide_eq_false_2 by done. rewrite Hid, Hu, Hactive. simpl.
    destruct (Hf w) as (r & w'' & ->). done.
Qed.

End guard_properties.

(** The deactivated administrator asks to read case 1 through the guarded
    route: the guard answers 401 although [authorize_case_access] alone
    would have let an administrator through. *)
Lemma auth_required_denies_inactive_witness :
  let route := λ u, require_case_access "read"
                      (λ _ _ _, mret (Message "handler reached", 200))
                      u (Some 1) in
  (authorization.authorize_case_access (Some example_open_case)
     example_inactive_admin "read").1 = true
  ∧ (@auth.auth_required example_int_library false route (mkToken "t1" "4")
       example_world_with_inactive).1
    = Returned (Error "User not found or inactive" None, 401).
Proof.
  split; [reflexivity|].
  destruct (@auth_required_denies_inactive example_int_library false
              (λ u, require_case_access "read"
                      (λ _ _ _, mret (Message "handler reached", 200))
                      u (Some 1))
              (mkToken "t1" "4") example_world_with_inactive)
    as (_ & Hinactive & _).
  apply (Hinactive 4 example_inactive_admin); [|reflexivity..].
  apply not_elem_of_empty.
Defined.

(** *** The status history of a case *)

Lemma status_path_trans (s1 s2 s3 : string) :
  status_path s1 s2 → status_path s2 s3 → status_path s1 s3.
Proof.
  induction 1 as [|s s' s'' Hstep _ IH]; [done|].
  intros H23. eapply status_path_step; [exact Hstep | by apply IH].
Qed.

(** The paths there are: a status to itself, open to in_progress or closed,
    in_progress to closed. *)
Lemma status_path_spec (s s' : string) :
  status_path s s' ↔
  s' = s
  ∨ (s = "open" ∧ (s' = "in_progress" ∨ s' = "closed"))
  ∨ (s = "in_progress" ∧ s' = "closed").
Proof.
  split.
  - induction 1 as [|s s' s'' Hstep _ IH]; [by left|].
    unfold Case.STATUS_TRANSITIONS in Hstep. simpl in Hstep.
    repeat case_decide; subst;
      first [ by apply not_elem_of_nil in Hstep
            | apply list_elem_of_singleton in Hstep; subst ].
    + destruct IH as [->|[[? _]|[_ ->]]]; [auto | discriminate | auto].
    + destruct IH as [->|[[? _]|[? _]]]; [auto | discriminate..].
  - intros [->|[[-> [->| ->]]|[-> ->]]].
    + constructor.
    + eapply status_path_step; [|constructor]. by left.
    + eapply status_path_step; [by left|].
      eapply status_path_step; [|constructor]. by left.
    + eapply status_path_step; [|constructor]. by left.
Qed.

Lemma update_status_effect (c : Case.t) (new_status : string) :
  (Case.can_transition_to c new_status = true
   ∧ Case.update_status c new_status = (true, Case.set_status new_status c))
  ∨ (Case.can_transition_to c new_status = false
     ∧ Case.update_status c new_status = (false, c)).
Proof.
  unfold Case.update_status. destruct (Case.can_transition_to c new_status); auto.
Qed.

(** [Case.update_status] reports true exactly for a legal transition; it
    then rewrites the status and nothing else, and otherwise leaves the
    object as it was. Over any sequence of calls the status only moves along
    the transition table, every other column keeps its value, and a closed
    case is never changed. *)
Theorem update_status_history (c : Case.t) (targets : list string) :
  (∀ new_status : string,
     ((Case.update_status c new_status).1 = true ↔
      Case.can_transition_to c new_status = true)
     ∧ (Case.update_status c new_status).2
       = (if Case.can_transition_to c new_status
          then Case.set_status new_status c else c))
  ∧ status_path (Case.status c) (Case.status (run_update_status c targets))
  ∧ Case.set_status (Case.status c) (run_update_status c targets) = c
  ∧ (Case.status c = "closed" → run_update_status c targets = c).
Proof.
  split.
  { intros new_status. unfold Case.update_status.
    by destruct (Case.can_transition_to c new_status). }
  revert c. induction targets as [|t targets IH]; intros c.
  { split_and!; [constructor | by destruct c | done]. }
  unfold run_update_status in *. simpl.
  destruct (IH (Case.update_status c t).2) as (Hpath & Hrest & Hclosed).
  destruct (update_status_effect c t) as [[Hok Heq]|[Hno Heq]];
    rewrite Heq in *; simpl in *.
  - apply can_transition_to_spec in Hok as Hcases.
    split_and!.
    + eapply status_path_step; [|exact Hpath].
      by apply valid_transitions_are_next_states.
    + apply (f_equal (Case.set_status (Case.status c))) in Hrest.
      destruct c; simpl in *. exact Hrest.
    + intros Hc. rewrite Hc in Hcases.
      by destruct Hcases as [[? _]|[? _]].
  - done.
Qed.

(** The life of the test suite's case: open, in_progress, closed, and then
    no way back. *)
Lemma update_status_history_witness :
  Case.status (run_update_status example_open_case ["in_progress"; "closed"; "open"])
  = "closed"
  ∧ run_update_status example_closed_case ["open"; "in_progress"] = example_closed_case.
Proof.
  destruct (update_status_history example_closed_case ["open"; "in_progress"])
    as (_ & _ & _ & Hclosed).
  split; [reflexivity | by apply Hclosed].
Defined.

(** *** What a request can do to the tables *)

Section call_effects.
Context `{Library}.

Lemma status_set_fields (v : schemas.CaseUpdateData) (c : Case.t) :
  Case.status (SimplifiedCaseService.set_fields v c) = Case.status c.
Proof.
  unfold SimplifiedCaseService.set_fields.
  by destruct (schemas.u_title v), (schemas.u_description v),
     (schemas.u_priority v), (schemas.u_due_date v), (schemas.u_assigned_to v).
Qed.

Lemma is_active_set_fields (v : schemas.CaseUpdateData) (c : Case.t) :
  Case.is_active (SimplifiedCaseService.set_fields v c) = Case.is_active c.
Proof.
  unfold SimplifiedCaseService.set_fields.
  by destruct (schemas.u_title v), (schemas.u_description v),
     (schemas.u_priority v), (schemas.u_due_date v), (schemas.u_assigned_to v).
Qed.

(** [update_case] either leaves the tables alone or rewrites the one
    active row it was asked for, from validated data. *)
Lemma update_case_effect (case_id : Z) (data : payload) (u : User.t)
    (env : Env) (db : Tables) :
  let db' := (SimplifiedCaseService.update_case case_id data u env db).2 in
  db' = db
  ∨ ∃ (case0 case1 : Case.t) (v : schemas.CaseUpdateData),
      active_case db case_id = Some case0
      ∧ schemas.CaseUpdateSchema_load (now env) data = inr v
      ∧ (case1 = case0
         ∨ ∃ s, schemas.u_status v = Some s
                ∧ Case.can_transition_to case0 s = true
                ∧ case1 = Case.set_status s case0)
      ∧ db' = set_cases
                (<[case_id := flush_update (now env) case0
                                (SimplifiedCaseService.set_fields v case1)]>
                   (cases db)) db.
Proof.
  unfold SimplifiedCaseService.update_case.
  destruct (active_case db case_id) as [case0|] eqn:Hc; [|by left].
  destruct (schemas.CaseUpdateSchema_load _ _) as [e|v] eqn:Hload; [by left|].
  destruct (schemas.u_status v) as [s|] eqn:Hs.
  - destruct (Case.can_transition_to case0 s) eqn:Hok; simpl; [|by left].
    destruct (negb _); [by left|].
    destruct (commit_error env); [by left|]. simpl.
    right. exists case0, (Case.set_status s case0), v.
    split_and!; try done. right. by exists s.
  - simpl. destruct (negb _); [by left|].
    destruct (commit_error env); [by left|]. simpl.
    right. exists case0, case0, v. split_and!; try done. by left.
Qed.

(** [delete_case] either leaves the tables alone or marks the one active
    row it was asked for. *)
Lemma delete_case_effect (case_id : Z) (u : User.t) (env : Env) (db : Tables) :
  let db' := (SimplifiedCaseService.delete_case case_id u env db).2 in
  db' = db
  ∨ ∃ case : Case.t,
      active_case db case_id = Some case
      ∧ db' = set_cases
                (<[case_id := Case.set_updated_at (now env)
                                (Case.set_is_active false case)]> (cases db)) db.
Proof.
  unfold SimplifiedCaseService.delete_case.
  destruct (active_case db case_id) as [case|] eqn:Hc; [|by left].
  destruct (commit_error env); [by left|]. simpl. right. exists case.
  split; [done|]. apply active_case_lookup in Hc as [_ Hact].
  unfold flush_update, Case.soft_delete. rewrite decide_False; [done|].
  intros Heq. apply (f_equal Case.is_active) in Heq. simpl in Heq. congruence.
Qed.

(** [create_case] either leaves the tables alone or adds one row, under a
    key no row had, built from validated data. *)
Lemma create_case_effect (data : payload) (u : User.t) (env : Env) (db : Tables) :
  let db' := (SimplifiedCaseService.create_case data u env db).2 in
  db' = db
  ∨ ∃ (v : schemas.CaseCreateData) (a : Z),
      schemas.CaseCreateSchema_load (now env) data = inr v
      ∧ cases db !! next_id (cases db) = None
      ∧ db' = set_cases
                (<[next_id (cases db) :=
                     Case.mk (schemas.c_title v) (Some (schemas.c_description v))
                       (schemas.c_status v) (schemas.c_priority v)
                       (mjoin (schemas.c_due_date v)) true (now env) (now env)
                       (User.id u) (Some a)]> (cases db)) db.
Proof.
  unfold SimplifiedCaseService.create_case.
  destruct (schemas.CaseCreateSchema_load _ _) as [e|v] eqn:Hload; [by left|].
  destruct (truthy_int _) as [a|].
  - destruct (users db !! a) as [au|]; [|by left].
    destruct (User.is_active au); [|by left].
    destruct (commit_error env); [by left|]. simpl.
    right. exists v, a. split_and!; [done | apply next_id_fresh | done].
  - destruct (commit_error env); [by left|]. simpl.
    right. exists v, (User.id u). split_and!; [done | apply next_id_fresh | done].
Qed.

End call_effects.

(** *** Invariants of the case table *)

Lemma flush_update_cases (t : Z) (old new : Case.t) :
  flush_update t old new = new ∨ flush_update t old new = Case.set_updated_at t new.
Proof. unfold flush_update. case_decide; subst; auto. Qed.

Lemma row_evolves_refl (c : Case.t) : row_evolves c c.
Proof. split_and!; [done | done | constructor | done]. Qed.

Lemma row_evolves_trans (c1 c2 c3 : Case.t) :
  row_evolves c1 c2 → row_evolves c2 c3 → row_evolves c1 c3.
Proof.
  intros (Hb & Ha & Hp & Hf) (Hb' & Ha' & Hp' & Hf'). split_and!.
  - congruence.
  - congruence.
  - by eapply status_path_trans.
  - intros Hin. specialize (Hf Hin). subst c2. by apply Hf'.
Qed.

Section table_invariants.
Context `{Library}.

(** Every row a request finds is still there afterwards, evolved. *)
Lemma run_call_rows (call : ServiceCall) (db : Tables) (id : Z) (c : Case.t) :
  cases db !! id = Some c →
  ∃ c', cases (run_call db call) !! id = Some c' ∧ row_evolves c c'.
Proof.
  intros Hrow. destruct call as [data u env|case_id data u env|case_id u env]; simpl.
  - destruct (create_case_effect data u env db) as [->|(v & a & _ & Hfresh & ->)].
    { exists c. split; [done | apply row_evolves_refl]. }
    simpl. exists c. split; [|apply row_evolves_refl].
    rewrite lookup_insert_ne; [done|]. intros Heq. congruence.
  - destruct (update_case_effect case_id data u env db)
      as [->|(case0 & case1 & v & Hc & _ & Hcase1 & ->)].
    { exists c. split; [done | apply row_evolves_refl]. }
    simpl. apply active_case_lookup in Hc as [Hc Hact].
    destruct (decide (case_id = id)) as [->|Hne].
    + rewrite lookup_insert_eq. eexists. split; [done|].
      assert (c = case0) as -> by congruence.
      assert (Case.created_by case1 = Case.created_by case0
              ∧ Case.created_at case1 = Case.created_at case0
              ∧ status_path (Case.status case0) (Case.status case1))
        as (Hby & Hat & Hpath).
      { destruct Hcase1 as [->|(s & _ & Hok & ->)].
        - split_and!; [done | done | constructor].
        - split_and!; [done | done |]. simpl.
          eapply status_path_step; [|constructor].
          by apply valid_transitions_are_next_states. }
      split_and!.
      * rewrite created_by_flush_update; [done|].
        by rewrite created_by_set_fields.
      * destruct (flush_update_cases (now env) case0
                    (SimplifiedCaseService.set_fields v case1)) as [->| ->];
          simpl; rewrite <- Hat; unfold SimplifiedCaseService.set_fields;
          by destruct (schemas.u_title v), (schemas.u_description v),
             (schemas.u_priority v), (schemas.u_due_date v),
             (schemas.u_assigned_to v).
      * destruct (flush_update_cases (now env) case0
                    (SimplifiedCaseService.set_fields v case1)) as [->| ->];
          simpl; by rewrite status_set_fields.
      * congruence.
    + exists c. split; [by rewrite lookup_insert_ne | apply row_evolves_refl].
  - destruct (delete_case_effect case_id u env db) as [->|(case & Hc & ->)].
    { exists c. split; [done | apply row_evolves_refl]. }
    simpl. apply active_case_lookup in Hc as [Hc Hact].
    destruct (decide (case_id = id)) as [->|Hne].
    + rewrite lookup_insert_eq. eexists. split; [done|].
      assert (c = case) as -> by congruence.
      split_and!; [done | done | constructor | congruence].
    + exists c. split; [by rewrite lookup_insert_ne | apply row_evolves_refl].
Qed.

(** No sequence of create, update and delete requests removes a row,
    changes its owner or its creation time, moves its status off the
    transition table (so a closed case stays closed and nothing is
    re-opened), or touches a soft-deleted row in any way (so nothing is
    undeleted either). *)
Theorem service_calls_keep_history (calls : list ServiceCall) (db : Tables)
    (id : Z) (c : Case.t) :
  cases db !! id = Some c →
  ∃ c' : Case.t,
    cases (run_calls calls db) !! id = Some c'
    ∧ Case.created_by c' = Case.created_by c
    ∧ Case.created_at c' = Case.created_at c
    ∧ status_path (Case.status c) (Case.status c')
    ∧ (Case.status c = "closed" → Case.status c' = "closed")
    ∧ (Case.is_active c = false → c' = c).
Proof.
  intros Hrow.
  assert (∃ c', cases (run_calls calls db) !! id = Some c' ∧ row_evolves c c')
    as (c' & Hc' & Hby & Hat & Hpath & Hfrozen).
  { revert db c Hrow. unfold run_calls.
    induction calls as [|call calls IH]; intros db c Hrow; simpl.
    - exists c. split; [done | apply row_evolves_refl].
    - destruct (run_call_rows call db id c Hrow) as (c1 & H1 & Hev1).
      destruct (IH _ _ H1) as (c2 & H2 & Hev2).
      exists c2. split; [done | by eapply row_evolves_trans]. }
  exists c'. split_and!; try done.
  intros Hclosed. apply status_path_spec in Hpath. rewrite Hclosed in Hpath.
  destruct Hpath as [->|[[? _]|[? _]]]; [done | discriminate..].
Qed.

End table_invariants.

(** On the example tables: whatever is asked of the closed case 2, it stays
    closed and keeps its owner, user 3. *)
Lemma service_calls_keep_history_witness :
  let calls :=
    [ CallUpdate 2 (Mapping {[ "status" := JStr "open" ]}) example_admin example_env;
      CallDelete 2 example_other example_env;
      CallUpdate 2 (Mapping {[ "title" := JStr "Switch" ]}) example_admin example_env ] in
  ∃ c' : Case.t,
    cases (@run_calls example_library calls example_db) !! 2 = Some c'
    ∧ Case.created_by c' = 3
    ∧ Case.status c' = "closed".
Proof.
  destruct (@service_calls_keep_history example_library
              [ CallUpdate 2 (Mapping {[ "status" := JStr "open" ]})
                  example_admin example_env;
                CallDelete 2 example_other example_env;
                CallUpdate 2 (Mapping {[ "title" := JStr "Switch" ]})
                  example_admin example_env ]
              example_db 2 example_closed_case eq_refl)
    as (c' & Hrow & Hby & _ & _ & Hclosed & _).
  exists c'. split_and!; [exact Hrow | exact Hby | by apply Hclosed].
Defined.

(** *** What the schemas let through *)




Section schema_properties.
Context `{Library}.






Lemma well_formed_set_updated_at (t : Z) (c : Case.t) :
  well_formed c → well_formed (Case.set_updated_at t c).
Proof. done. Qed.




End schema_properties.



Section unknown_fields.
Context `{Library}.

Lemma unknown_fields_member (declared : list string) (d : gmap string json)
    (k : string) (x : json) :
  d !! k = Some x → k ∉ declared →
  (k, "Unknown field.") ∈ schemas.unknown_fields declared d.
Proof.
  intros Hk Hnot. unfold schemas.unknown_fields.
  apply (list_elem_of_fmap_2' _ _ (k, x)); [|done].
  apply list_elem_of_filter. split; [done|]. by apply elem_of_map_to_list.
Qed.

Lemma CaseUpdateSchema_load_unknown (t : Z) (d : gmap string json)
    (k : string) (x : json) :
  d !! k = Some x → k ∉ schemas.case_fields →
  ∃ e, schemas.CaseUpdateSchema_load t (Mapping d) = inl e
       ∧ (k, "Unknown field.") ∈ e.
Proof.
  intros Hk Hnot.
  pose proof (unknown_fields_member _ _ _ _ Hk Hnot) as Hin.
  unfold schemas.CaseUpdateSchema_load.
  destruct (schemas.unknown_fields schemas.case_fields d) as [|p l] eqn:Hu;
    [by apply elem_of_nil in Hin|].
  eexists. split.
  - repeat case_match; reflexivity.
  - do 6 (apply elem_of_app; right). exact Hin.
Qed.

Lemma CaseCreateSchema_load_unknown (t : Z) (d : gmap string json)
    (k : string) (x : json) :
  d !! k = Some x → k ∉ schemas.case_fields →
  ∃ e, schemas.CaseCreateSchema_load t (Mapping d) = inl e
       ∧ (k, "Unknown field.") ∈ e.
Proof.
  intros Hk Hnot.
  pose proof (unknown_fields_member _ _ _ _ Hk Hnot) as Hin.
  unfold schemas.CaseCreateSchema_load.
  destruct (schemas.unknown_fields schemas.case_fields d) as [|p l] eqn:Hu;
    [by apply elem_of_nil in Hin|].
  exists (schemas.field_errors "title"
            (schemas.required (schemas.Str [schemas.Length 1 (Some 200%nat)])
               d "title")
          ++ schemas.field_errors "description"
               (schemas.with_missing (schemas.Str []) "" d "description")
          ++ schemas.field_errors "priority"
               (schemas.with_missing
                  (schemas.Str [schemas.OneOf ["low"; "medium"; "high"]])
                  "medium" d "priority")
          ++ schemas.field_errors "status"
               (schemas.with_missing
                  (schemas.Str [schemas.OneOf ["open"; "in_progress"; "closed"]])
                  "open" d "status")
          ++ schemas.field_errors "due_date"
               (schemas.optional (schemas.DateTime_allow_none t) d "due_date")
          ++ schemas.field_errors "assigned_to"
               (schemas.optional schemas.Int_allow_none d "assigned_to")
          ++ p :: l).
  split.
  - repeat case_match; reflexivity.
  - do 6 (apply elem_of_app; right). exact Hin.
Qed.

(** A payload that carries any key besides title, description, priority,
    status, due_date and assigned_to (say created_by, is_active or id) is
    refused as a whole: [create_case] answers 400 and [update_case] answers
    400, or 404 when there is no such active case, the error names the key,
    and the tables are left as they were. *)
Theorem unknown_field_is_refused (d : gmap string json) (k : string) (x : json) :
  d !! k = Some x →
  k ∉ ["title"; "description"; "priority"; "status"; "due_date"; "assigned_to"] →
  (∀ (u : User.t) (env : Env) (db : Tables),
     ∃ e, SimplifiedCaseService.create_case (Mapping d) u env db
          = ((Error "Validation failed" (Some (ValidationDetails e)), 400), db)
          ∧ (k, "Unknown field.") ∈ e)
  ∧ (∀ (case_id : Z) (u : User.t) (env : Env) (db : Tables),
       SimplifiedCaseService.update_case case_id (Mapping d) u env db
       = ((Error "Case not found" None, 404), db)
       ∨ ∃ e, SimplifiedCaseService.update_case case_id (Mapping d) u env db
              = ((Error "Validation failed" (Some (ValidationDetails e)), 400), db)
              ∧ (k, "Unknown field.") ∈ e).
Proof.
  intros Hk Hnot. split.
  - intros u env db.
    destruct (CaseCreateSchema_load_unknown (now env) d k x Hk Hnot)
      as (e & Hload & Hin).
    exists e. unfold SimplifiedCaseService.create_case. by rewrite Hload.
  - intros case_id u env db. unfold SimplifiedCaseService.update_case.
    destruct (active_case db case_id); [|by left]. right.
    destruct (CaseUpdateSchema_load_unknown (now env) d k x Hk Hnot)
      as (e & Hload & Hin).
    exists e. by rewrite Hload.
Qed.

End unknown_fields.

(** The administrator tries to hand case 1 to user 3 by writing its owner
    column. *)
Lemma unknown_field_is_refused_witness :
  ∃ e, @SimplifiedCaseService.update_case example_library 1
         (Mapping {[ "created_by" := JInt 3 ]}) example_admin example_env
         example_db
       = ((Error "Validation failed" (Some (ValidationDetails e)), 400),
          example_db)
       ∧ ("created_by", "Unknown field.") ∈ e.
Proof.
  destruct (@unknown_field_is_refused example_library
              {[ "created_by" := JInt 3 ]} "created_by" (JInt 3))
    as [_ Hupdate].
  { reflexivity. }
  { intros Hin.
    repeat (apply elem_of_cons in Hin as [Hin|Hin]; [discriminate|]).
    by apply elem_of_nil in Hin. }
  destruct (Hupdate 1 example_admin example_env example_db) as [Hnf|Hrej].
  - vm_compute in Hnf. discriminate Hnf.
  - exact Hrej.
Defined.

(** *** The listing under any query string *)

Section listing_bounds.
Context `{Library}.

Lemma parse_page_bounds (qp : gmap string string) :
  1 ≤ SimplifiedCaseService.parse_page qp.
Proof. unfold SimplifiedCaseService.parse_page. repeat case_match; lia. Qed.

Lemma parse_per_page_bounds (qp : gmap string string) :
  1 ≤ SimplifiedCaseService.parse_per_page qp ≤ 100.
Proof. unfold SimplifiedCaseService.parse_per_page. repeat case_match; lia. Qed.

(** A page has a successor exactly when rows lie beyond it. *)
Lemma has_next_spec (page per_page total : Z) :
  1 ≤ page → 1 ≤ per_page → 0 ≤ total →
  page < (if decide (total = 0) then 0 else (total + per_page - 1) / per_page)
  ↔ page * per_page < total.
Proof.
  intros Hp Hpp Ht. case_decide as H0; [subst; nia|].
  pose proof (Z.mul_div_le (total + per_page - 1) per_page ltac:(lia)) as Hlo.
  pose proof (Z.mul_succ_div_gt (total + per_page - 1) per_page ltac:(lia)) as Hhi.
  split; intros Hlt; nia.
Qed.

(** [get_cases] answers every query string: unless the query itself
    raises, the answer is 200, with a page of at least 1, a page size
    between 1 and 100 whatever was asked, exactly the rows of that page
    (none beyond the last page), only active cases, [has_prev] true exactly
    past the first page and [has_next] true exactly when rows lie beyond this
    page. *)
Theorem get_cases_pagination_bounds (query_params : gmap string string)
    (u : User.t) (env : Env) (db : Tables) :
  query_error env = None →
  ∃ (items : list CaseDict) (pg : Pagination),
    SimplifiedCaseService.get_cases query_params u env db = (CaseList items pg, 200)
    ∧ 1 ≤ p_page pg
    ∧ 1 ≤ p_per_page pg ≤ 100
    ∧ 0 ≤ p_total pg
    ∧ Z.of_nat (length items)
      = Z.min (p_per_page pg)
              (Z.max 0 (p_total pg - (p_page pg - 1) * p_per_page pg))
    ∧ (∀ cd, cd ∈ items → d_is_active cd = true)
    ∧ (p_has_prev pg = true ↔ 1 < p_page pg)
    ∧ (p_has_next pg = true ↔ p_page pg * p_per_page pg < p_total pg).
Proof.
  intros Herr. unfold SimplifiedCaseService.get_cases. rewrite Herr.
  eexists _, _. split; [reflexivity|]. simpl.
  pose proof (parse_page_bounds query_params) as Hpage.
  pose proof (parse_per_page_bounds query_params) as Hpp.
  split_and!; try lia.
  - rewrite length_fmap, length_take, length_drop.
    assert (0 ≤ (SimplifiedCaseService.parse_page query_params - 1)
                * SimplifiedCaseService.parse_per_page query_params) by nia.
    lia.
  - intros cd Hcd. apply list_elem_of_fmap in Hcd as ([id c] & -> & Hin).
    apply (elem_of_paginate _ (SimplifiedCaseService.parse_page query_params)
             (SimplifiedCaseService.parse_per_page query_params)) in Hin.
    unfold SimplifiedCaseService.order_by_created_at_desc in Hin.
    rewrite merge_sort_Permutation in Hin.
    eapply elem_of_sublist in Hin; [|apply filters_sublist].
    by apply get_accessible_cases_query_spec in Hin as (_ & Hact & _).
  - by rewrite bool_decide_eq_true.
  - rewrite bool_decide_eq_true. apply has_next_spec; lia.
Qed.

End listing_bounds.

(** A library whose [int()] reads the two numbers of the example below. *)
Lemma get_cases_pagination_bounds_witness :
  let lib := {| int_of_str := λ s, if decide (s = "1000") then Some 1000
                                    else if decide (s = "-3") then Some (-3)
                                    else None;
                from_iso_datetime := λ _, None;
                ilike := λ _ _, false |} in
  ∃ (items : list CaseDict) (pg : Pagination),
    @SimplifiedCaseService.get_cases lib
       {[ "page" := "-3"; "per_page" := "1000"; "status" := "archived" ]}
       example_admin example_env example_db
    = (CaseList items pg, 200)
    ∧ p_page pg = 1 ∧ p_per_page pg = 100 ∧ p_total pg = 2
    ∧ length items = 2%nat
    ∧ (p_has_next pg = true ↔ p_page pg * p_per_page pg < p_total pg).
Proof.
  destruct (@get_cases_pagination_bounds
              {| int_of_str := λ s, if decide (s = "1000") then Some 1000
                                    else if decide (s = "-3") then Some (-3)
                                    else None;
                 from_iso_datetime := λ _, None;
                 ilike := λ _ _, false |}
              {[ "page" := "-3"; "per_page" := "1000"; "status" := "archived" ]}
              example_admin example_env example_db eq_refl)
    as (items & pg & Heq & _ & _ & _ & _ & _ & _ & Hnext).
  exists items, pg. vm_compute in Heq. injection Heq as <- <-.
  split_and!; try reflexivity. exact Hnext.
Defined.

(** *** Logging out and the route guards *)

Section route_guards.
Context `{Library}.

(** [logout_user] answers 200 and revokes exactly the token it is given:
    from then on every route behind [auth_required] answers that token 401
    without running, while the revocation state of every other token, and
    the database, are as before. *)
Theorem logout_revokes_token (token : Token) (admin_only : bool)
    (f : User.t → M response) (w : World) :
  let r := logout_user token w in
  r.1 = Returned (Message "Successfully logged out", 200)
  ∧ (auth.auth_required admin_only f token r.2).1
    = Returned (Error "Token has been revoked" None, 401)
  ∧ (∀ other : Token, jti other ≠ jti token →
       jti other ∈ blacklisted_tokens r.2 ↔ jti other ∈ blacklisted_tokens w)
  ∧ committed r.2 = committed w
  ∧ working r.2 = working w
  ∧ (logout_user token r.2).2 = r.2.
Proof.
  unfold logout_user, modify_world, mbind, M_bind, mret, M_ret. simpl.
  split_and!; try done.
  - unfold auth.auth_required, try_except, get_world, mbind, M_bind, mret, M_ret.
    simpl. rewrite bool_decide_eq_true_2
      by (apply elem_of_union; left; by apply elem_of_singleton).
    step_log_action Hkeep. done.
  - intros other Hne. rewrite elem_of_union, elem_of_singleton. tauto.
  - unfold set_blacklisted_tokens. simpl. f_equal.
    by rewrite (assoc_L (∪)), union_idemp_L.
Qed.

(** What stands between a request and a case route function: the function
    runs only for a token that is not revoked and whose identity is an
    active user the coarse rule authorizes for the action, and it is handed
    that user and the active case fetched for the id, if any. In every
    other case the answer is 401, 403, 404 or 422 and does not depend on
    the route function at all. *)
Theorem case_route_runs_only_when_authorized (action : string)
    (f : User.t → option Z → option Case.t → M response)
    (case_id : option Z) (token : Token) (w : World) :
  (∃ (b : body) (code : Z),
     code ∈ [401; 403; 404; 422]
     ∧ (case_route action f case_id token w).1 = Returned (b, code)
     ∧ (∀ f', case_route action f' case_id token w
              = case_route action f case_id token w))
  ∨ (∃ (n : Z) (u : User.t) (case : option Case.t),
       (jti token ∉ blacklisted_tokens w)
       ∧ int_of_str (identity token) = Some n
       ∧ users (working w) !! n = Some u
       ∧ User.is_active u = true
       ∧ (authorization.authorize_case_access case u action).1 = true
       ∧ (∀ c, case = Some c →
               ∃ id, case_id = Some id ∧ active_case (working w) id = Some c)
       ∧ case_route action f case_id token w
         = try_except (f u case_id case)
             (λ e,
                print ("Error in auth decorator: " +:+ e);;
                AuditLogger.log_action None "AUTH_CHECK" "ERROR" None "ERROR" e;;
                mret (Error "Authentication error" (Some (ExceptionDetails e)), 422))
             w).
Proof.
  unfold case_route, auth.auth_required, require_case_access, try_except,
    get_world, raise, print, modify_world, mbind, M_bind, mret, M_ret.
  simpl.
  destruct (bool_decide (jti token ∈ blacklisted_tokens w)) eqn:Hbl.
  { left. eexists _, _. split; [|step_log_action Hkeep; split; reflexivity].
    by repeat constructor. }
  apply bool_decide_eq_false in Hbl.
  destruct (int_of_str (identity token)) as [n|] eqn:Hid; simpl; cycle 1.
  { left. eexists _, _. split; [|step_log_action Hkeep; split; reflexivity].
    by repeat constructor. }
  destruct (users (working w) !! n) as [u|] eqn:Hu; cycle 1.
  { left. eexists _, _. split; [|step_log_action Hkeep; split; reflexivity].
    by repeat constructor. }
  destruct (User.is_active u) eqn:Hact; simpl; cycle 1.
  { left. eexists _, _. split; [|step_log_action Hkeep; split; reflexivity].
    by repeat constructor. }
  destruct (truthy case_id && negb (bool_decide (action = "create"))) eqn:Hfetch.
  - destruct case_id as [id|]; [|done]. simpl.
    destruct (active_case (working w) id) as [c|] eqn:Hc; simpl.
    + destruct (authorization.authorize_case_access (Some c) u action)
        as [[] err] eqn:Hauth; simpl.
      * right. exists n, u, (Some c). rewrite Hauth.
        split_and!; try done. intros c' [= <-]. by exists id.
      * left. eexists _, _. split; [|split; reflexivity]. by repeat constructor.
    + left. eexists _, _. split; [|split; reflexivity]. by repeat constructor.
  - simpl.
    destruct (authorization.authorize_case_access None u action)
      as [[] err] eqn:Hauth; simpl.
    + right. exists n, u, None. rewrite Hauth. split_and!; done.
    + left. eexists _, _. split; [|split; reflexivity]. by repeat constructor.
Qed.


End route_guards.

(** The owner of the closed case 2 asks to write it: the guard answers
    403. The administrator asks the same: the route function runs, with the
    case in hand. *)
Lemma case_route_runs_only_when_authorized_witness :
  let lib := {| int_of_str := λ s, if decide (s = "3") then Some 3
                                    else if decide (s = "1") then Some 1 else None;
                from_iso_datetime := λ _, None;
                ilike := λ _ _, false |} in
  let f := λ (u : User.t) (_ : option Z) (c : option Case.t),
             mret (Message (User.username u +:+ " reached the route"), 200) in
  (@case_route lib "write" f (Some 2) (mkToken "t3" "3") (example_world [])).1
  = Returned (Error "Unauthorized access" None, 403)
  ∧ (@case_route lib "write" f (Some 2) (mkToken "t1" "1") (example_world [])).1
    = Returned (Message "root reached the route", 200).
Proof.
  split; [reflexivity|].
  destruct (@case_route_runs_only_when_authorized
              {| int_of_str := λ s, if decide (s = "3") then Some 3
                                    else if decide (s = "1") then Some 1 else None;
                 from_iso_datetime := λ _, None;
                 ilike := λ _ _, false |}
              "write"
              (λ (u : User.t) (_ : option Z) (c : option Case.t),
                 mret (Message (User.username u +:+ " reached the route"), 200))
              (Some 2) (mkToken "t1" "1") (example_world []))
    as [(b & code & _ & Hdenied & _)|(n & u & case & _ & Hn & Hu & _ & _ & _ & ->)].
  - vm_compute in Hdenied. injection Hdenied as <- <-. reflexivity.
  - vm_compute in Hn. injection Hn as <-. vm_compute in Hu. injection Hu as <-.
    reflexivity.
Defined.

(** *** The permission-gated entry point *)

Lemma log_action_audit_file (user_id : option Z) (action resource_type : string)
    (resource_id : option Z) (result details : string) (w : World) :
  audit_file (AuditLogger.log_action user_id action resource_type resource_id
                result details w).2
  = audit_file w
    ++ [mkLogLine user_id action
          (if truthy resource_id
           then resource_type +:+ ":" +:+ pretty (default 0 resource_id)
           else resource_type)
          result details].
Proof.
  run_M. by destruct (faults w) as [|[e|] [|[e'|] rest]].
Qed.

(** Meets the [log_action] call the goal is stuck on and names the world
    it leaves, with the line it adds to [audit.log]. *)
Ltac step_log_action_line w1 Hline :=
  match goal with
  | |- context [AuditLogger.log_action ?a ?b ?c ?d ?e ?f ?w0] =>
    let Hret := fresh "Hret" in
    pose proof (log_action_returns a b c d e f w0) as Hret;
    pose proof (log_action_audit_file a b c d e f w0) as Hline;
    destruct (AuditLogger.log_action a b c d e f w0) as [[[]|?] w1];
    [clear Hret; simpl in Hline | discriminate Hret]
  end.

Section permission_gate.
Local Arguments RBACManager.has_permission : simpl never.

(** Every call through [require_permission], with no resource loader or
    with [case_loader], writes exactly one line to [audit.log] before
    anything else happens, and the line carries the decision: UNAUTHORIZED
    and 401 without a current user, FORBIDDEN and 403 when [has_permission]
    denies, SUCCESS when it grants, and only then does the guarded function
    run. When the loader finds no active case the permission is decided with
    no resource, by the table alone. *)
Theorem require_permission_audits_once (permission : Permission)
    (case_id : option Z) (name : string) (f : M response)
    (g_current_user : option User.t) (w : World) :
  let resource := id ← case_id; ResCase <$> active_case (working w) id in
  ∃ (line : LogLine) (w1 : World),
    audit_file w1 = audit_file w ++ [line]
    ∧ l_action line = name
    ∧ match g_current_user with
      | None =>
        l_result line = "UNAUTHORIZED"
        ∧ require_permission permission (case_loader <$> case_id) name f None w
          = (Returned (Error "Authentication required" None, 401), w1)
      | Some user =>
        l_user_id line = Some (User.id user)
        ∧ if RBACManager.has_permission (Some user) permission resource
          then l_result line = "SUCCESS"
               ∧ require_permission permission (case_loader <$> case_id) name f
                   (Some user) w = f w1
          else l_result line = "FORBIDDEN"
               ∧ require_permission permission (case_loader <$> case_id) name f
                   (Some user) w
                 = (Returned (Error "Insufficient permissions" None, 403), w1)
      end.
Proof.
  unfold require_permission, case_loader, try_except, get_world, mbind, M_bind,
    mret, M_ret. simpl.
  destruct g_current_user as [user|].
  - destruct case_id as [id|]; simpl;
      match goal with
      | |- context [RBACManager.has_permission ?a ?b ?c] =>
        destruct (RBACManager.has_permission a b c)
      end; simpl;
      step_log_action_line w1 Hline; eexists _, w1;
      (split; [exact Hline|]); done.
  - step_log_action_line w1 Hline. eexists _, w1.
    split; [exact Hline|]. done.
Qed.

End permission_gate.

(** User 3, who owns nothing, asks to edit the soft-deleted or missing case
    7 through the gate: no case is loaded, the table grants a user
    EDIT_OWN_CASES, and the guarded function runs. *)
Lemma require_permission_audits_once_witness :
  let f : M response := mret (Message "edited", 200) in
  ∃ w1,
    require_permission EDIT_OWN_CASES (Some (case_loader 7)) "edit_case" f
      (Some example_other) (example_world [])
    = (Returned (Message "edited", 200), w1)
    ∧ audit_file w1
      = [mkLogLine (Some 3) "edit_case" "ENDPOINT" "SUCCESS"
           "Permission: edit_own_cases"].
Proof.
  destruct (require_permission_audits_once EDIT_OWN_CASES (Some 7) "edit_case"
              (mret (Message "edited", 200)) (Some example_other)
              (example_world []))
    as (line & w1 & Hfile & _ & _ & Hdecision).
  vm_compute in Hdecision. destruct Hdecision as [_ Heq].
  exists w1. split; [exact Heq|].
  injection Heq as <-. reflexivity.
Defined.

(** *** Reading one case, and the two rule sets side by side *)

Lemma active_case_intro (db : Tables) (case_id : Z) (c : Case.t) :
  cases db !! case_id = Some c → Case.is_active c = true →
  active_case db case_id = Some c.
Proof. intros Hrow Hact. unfold active_case. by rewrite Hrow, Hact. Qed.

(** [CaseService.get_case] answers 200 exactly for the cases the scoping
    query selects for the actor, which are the active cases the coarse rule
    lets the actor read; it answers 404 when no active case has the id and
    403 for an active case out of the actor's scope. Where it answers 200
    the body is the one [SimplifiedCaseService.get_case] gives. *)
Theorem CaseService_get_case_is_scoped (case_id : Z) (u : User.t) (db : Tables) :
  ((CaseService_get_case case_id u db).2 = 200 ↔
   ∃ c, (case_id, c) ∈ authorization.get_accessible_cases_query u db)
  ∧ ((CaseService_get_case case_id u db).2 = 200 ↔
     ∃ c, active_case db case_id = Some c
          ∧ (authorization.authorize_case_access (Some c) u "read").1 = true)
  ∧ ((CaseService_get_case case_id u db).2 = 404 ↔ active_case db case_id = None)
  ∧ (CaseService_get_case case_id u db).2 ∈ [200; 403; 404]
  ∧ ((CaseService_get_case case_id u db).2 = 200 →
     CaseService_get_case case_id u db
     = SimplifiedCaseService.get_case case_id u db).
Proof.
  assert (∀ c, active_case db case_id = Some c →
               (CaseService_get_case case_id u db).2 = 200 ↔
               User.role u = "admin"
               ∨ Case.created_by c = User.id u
               ∨ Case.assigned_to c = Some (User.id u)) as Hscope.
  { intros c Hc. unfold CaseService_get_case, User.is_admin. rewrite Hc.
    repeat case_bool_decide; simpl; intuition congruence. }
  split_and!.
  - split.
    + intros H200. destruct (active_case db case_id) as [c|] eqn:Hc.
      * exists c. apply get_accessible_cases_query_spec.
        apply active_case_lookup in Hc as Hrow. destruct Hrow.
        split_and!; try done. by apply (Hscope c).
      * unfold CaseService_get_case in H200. by rewrite Hc in H200.
    + intros [c Hin]. apply get_accessible_cases_query_spec in Hin
        as (Hrow & Hact & Hwho).
      apply (Hscope c); [|done]. by apply active_case_intro.
  - split.
    + intros H200. destruct (active_case db case_id) as [c|] eqn:Hc.
      * exists c. split; [done|]. apply (Hscope c eq_refl) in H200.
        destruct (decide (User.role u = "admin")) as [Hadm|Hadm].
        -- by rewrite authorize_admin.
        -- apply authorize_read; [done|]. tauto.
      * unfold CaseService_get_case in H200. by rewrite Hc in H200.
    + intros (c & Hc & Hauth). apply (Hscope c Hc).
      destruct (decide (User.role u = "admin")) as [Hadm|Hadm]; [by left|].
      right. by apply authorize_read.
  - unfold CaseService_get_case.
    destruct (active_case db case_id); [|done].
    split; [|done]. by case_match.
  - unfold CaseService_get_case.
    destruct (active_case db case_id); [|by repeat constructor].
    case_match; by repeat constructor.
  - unfold CaseService_get_case, SimplifiedCaseService.get_case.
    destruct (active_case db case_id); [|done]. by case_match.
Qed.

(** User 3 is assigned case 1 and may read it; user 2 has nothing to do
    with case 2 and is refused; nobody reads case 9. *)
Lemma CaseService_get_case_is_scoped_witness :
  (CaseService_get_case 1 example_other example_db).2 = 200
  ∧ (CaseService_get_case 2 example_user example_db).2 = 403
  ∧ (CaseService_get_case 9 example_admin example_db).2 = 404.
Proof.
  destruct (CaseService_get_case_is_scoped 1 example_other example_db)
    as (_ & Hread & _).
  destruct (CaseService_get_case_is_scoped 9 example_admin example_db)
    as (_ & _ & Hmissing & _).
  split_and!.
  - apply Hread. exists example_open_case. split; reflexivity.
  - reflexivity.
  - apply Hmissing. reflexivity.
Defined.

(** The capability rules and the coarse rule for the two roles the users
    table admits. For an active administrator or user they agree on
    reading. On writing and deleting the coarse rule is the stricter one:
    whatever it allows, [can_edit_case] and [can_delete_case] allow; the two
    differ exactly on the closed cases a user owns, which the capability
    rules still let the owner edit and delete. *)
Theorem rule_sets_compared (u : User.t) (c : Case.t) :
  User.is_active u = true →
  User.role u = "admin" ∨ User.role u = "user" →
  RBACManager.can_view_case u c
  = (authorization.authorize_case_access (Some c) u "read").1
  ∧ ((authorization.authorize_case_access (Some c) u "write").1 = true →
     RBACManager.can_edit_case u c = true)
  ∧ ((authorization.authorize_case_access (Some c) u "delete").1 = true →
     RBACManager.can_delete_case u c = true)
  ∧ (RBACManager.can_edit_case u c
     ≠ (authorization.authorize_case_access (Some c) u "write").1 ↔
     User.role u = "user" ∧ Case.created_by c = User.id u
     ∧ Case.status c = "closed")
  ∧ (RBACManager.can_delete_case u c
     ≠ (authorization.authorize_case_access (Some c) u "delete").1 ↔
     User.role u = "user" ∧ Case.created_by c = User.id u
     ∧ Case.status c = "closed").
Proof.
  intros Hact Hrole.
  unfold RBACManager.can_view_case, RBACManager.can_edit_case,
    RBACManager.can_delete_case, RBACManager.has_permission,
    authorization.authorize_case_access.
  rewrite Hact. destruct Hrole as [-> | ->]; simpl.
  - split_and!; try done; split; try done; intros (? & _); discriminate.
  - destruct (decide (Case.status c = "closed"));
      repeat case_bool_decide; simpl; split_and!; try done;
      split; try done; intuition congruence.
Qed.

(** User 3 owns the closed case 2: the capability rules let the owner edit
    it, the coarse rule does not. *)
Lemma rule_sets_compared_witness :
  RBACManager.can_edit_case example_other example_closed_case = true
  ∧ (authorization.authorize_case_access (Some example_closed_case) example_other
       "write").1 = false
  ∧ RBACManager.can_view_case example_other example_closed_case
    = (authorization.authorize_case_access (Some example_closed_case)
         example_other "read").1.
Proof.
  destruct (rule_sets_compared example_other example_closed_case eq_refl)
    as (Hview & _).
  { by right. }
  split_and!; [reflexivity | reflexivity | exact Hview].
Defined.

(** *** The administrator's listing and the order of listings *)

Lemma newer_first_transitive : Transitive SimplifiedCaseService.newer_first.
Proof. intros a b c. unfold SimplifiedCaseService.newer_first. lia. Qed.

Lemma newer_first_total : Total SimplifiedCaseService.newer_first.
Proof. intros a b. unfold SimplifiedCaseService.newer_first. lia. Qed.

Lemma order_by_created_at_desc_sorted (rows : list (Z * Case.t)) :
  StronglySorted SimplifiedCaseService.newer_first
    (SimplifiedCaseService.order_by_created_at_desc rows).
Proof.
  apply (@StronglySorted_merge_sort _ SimplifiedCaseService.newer_first _
           newer_first_transitive newer_first_total).
Qed.

Lemma to_dict_sorted (db : Tables) (rows : list (Z * Case.t)) :
  StronglySorted SimplifiedCaseService.newer_first rows →
  StronglySorted (λ a b, d_created_at b ≤ d_created_at a)
    ((λ r, Case_to_dict db r.1 r.2) <$> rows).
Proof. apply StronglySorted_fmap. by intros [i c] [j c']. Qed.

(** [get_all_cases_admin] lists either the active cases or, when asked
    with is_active=false, the soft-deleted ones, never both; a status
    parameter is taken as it comes, so one outside the enumeration selects
    nothing; the cases come newest first. *)
Theorem get_all_cases_admin_lists (query_params : gmap string string)
    (env : Env) (db : Tables) :
  query_error env = None →
  ∃ cs : list CaseDict,
    get_all_cases_admin query_params env db = (AdminCases cs, 200)
    ∧ (∀ cd, cd ∈ cs ↔
         ∃ (id : Z) (c : Case.t),
           cases db !! id = Some c
           ∧ cd = Case_to_dict db id c
           ∧ Case.is_active c
             = negb (bool_decide (query_params !! "is_active" = Some "false"))
           ∧ (∀ st, query_params !! "status" = Some st → st ≠ "" →
                    Case.status c = st))
    ∧ StronglySorted (λ a b, d_created_at b ≤ d_created_at a) cs
    ∧ (∀ st, query_params !! "status" = Some st → st ≠ "" →
             st ∉ Case.VALID_STATUSES →
             (∀ id c, cases db !! id = Some c → well_formed c) →
             cs = []).
Proof.
  intros Herr. unfold get_all_cases_admin. rewrite Herr. eexists.
  split; [reflexivity|].
  assert (∀ cd,
    cd ∈ (λ r : Z * Case.t, Case_to_dict db r.1 r.2) <$>
           SimplifiedCaseService.order_by_created_at_desc
             (if decide (query_params !! "is_active" = Some "false")
              then filter (λ r : Z * Case.t, Case.is_active r.2 = false)
                     match query_params !! "status" with
                     | Some st =>
                       if decide (st = "") then map_to_list (cases db)
                       else filter (λ r : Z * Case.t, Case.status r.2 = st)
                              (map_to_list (cases db))
                     | None => map_to_list (cases db)
                     end
              else filter (λ r : Z * Case.t, Case.is_active r.2 = true)
                     match query_params !! "status" with
                     | Some st =>
                       if decide (st = "") then map_to_list (cases db)
                       else filter (λ r : Z * Case.t, Case.status r.2 = st)
                              (map_to_list (cases db))
                     | None => map_to_list (cases db)
                     end) ↔
    ∃ (id : Z) (c : Case.t),
      cases db !! id = Some c
      ∧ cd = Case_to_dict db id c
      ∧ Case.is_active c
        = negb (bool_decide (query_params !! "is_active" = Some "false"))
      ∧ (∀ st, query_params !! "status" = Some st → st ≠ "" →
               Case.status c = st)) as Hmem.
  { intros cd. rewrite list_elem_of_fmap.
    unfold SimplifiedCaseService.order_by_created_at_desc.
    setoid_rewrite merge_sort_Permutation.
    assert (∀ id c,
      (id, c) ∈ match query_params !! "status" with
                | Some st =>
                  if decide (st = "") then map_to_list (cases db)
                  else filter (λ r : Z * Case.t, Case.status r.2 = st)
                         (map_to_list (cases db))
                | None => map_to_list (cases db)
                end ↔
      cases db !! id = Some c
      ∧ (∀ st, query_params !! "status" = Some st → st ≠ "" →
               Case.status c = st)) as Hst.
    { intros id c. destruct (query_params !! "status") as [st|].
      - case_decide as He.
        + rewrite elem_of_map_to_list. split; [|tauto].
          intros Hrow. split; [done|]. by intros st' [= <-].
        + rewrite list_elem_of_filter, elem_of_map_to_list. simpl.
          split; [|intros [? Hs]; split; [by apply Hs | done]].
          intros [Hs Hrow]. split; [done|]. by intros st' [= <-].
      - rewrite elem_of_map_to_list. split; [|tauto].
        intros Hrow. split; [done|]. done. }
    case_decide as Hia.
    - rewrite bool_decide_eq_true_2 by done. simpl. split.
      + intros ([id c] & -> & Hin). apply list_elem_of_filter in Hin as [Hact Hin].
        apply Hst in Hin as [Hrow Hstatus]. by exists id, c.
      + intros (id & c & Hrow & -> & Hact & Hstatus). exists (id, c).
        split; [done|]. apply list_elem_of_filter. split; [done|]. by apply Hst.
    - rewrite bool_decide_eq_false_2 by done. simpl. split.
      + intros ([id c] & -> & Hin). apply list_elem_of_filter in Hin as [Hact Hin].
        apply Hst in Hin as [Hrow Hstatus]. by exists id, c.
      + intros (id & c & Hrow & -> & Hact & Hstatus). exists (id, c).
        split; [done|]. apply list_elem_of_filter. split; [done|]. by apply Hst. }
  split_and!.
  - exact Hmem.
  - apply to_dict_sorted, order_by_created_at_desc_sorted.
  - intros st Hst Hne Hinvalid Hwf.
    apply elem_of_nil_inv. intros cd Hin.
    apply Hmem in Hin as (id & c & Hrow & _ & _ & Hstatus).
    apply Hinvalid. rewrite <- (Hstatus st Hst Hne). by apply (Hwf id c).
Qed.

(** The administrator asks for the soft-deleted cases of the example tables
    after case 1 has been deleted: exactly that one. *)
Lemma get_all_cases_admin_lists_witness :
  let db := (SimplifiedCaseService.delete_case 1 example_user example_env
               example_db).2 in
  ∃ cs : list CaseDict,
    get_all_cases_admin {[ "is_active" := "false" ]} example_env db
    = (AdminCases cs, 200)
    ∧ d_id <$> cs = [1]
    ∧ (∀ cd, cd ∈ cs → d_is_active cd = false).
Proof.
  destruct (get_all_cases_admin_lists {[ "is_active" := "false" ]} example_env
              (SimplifiedCaseService.delete_case 1 example_user example_env
                 example_db).2 eq_refl)
    as (cs & Heq & Hmem & _).
  exists cs. split; [exact Heq|]. split.
  - vm_compute in Heq. injection Heq as <-. reflexivity.
  - intros cd Hcd. apply Hmem in Hcd as (id & c & _ & -> & Hact & _).
    simpl. rewrite Hact. reflexivity.
Defined.

(** *** More of the capability check *)

(** Supplying a resource never grants what the table does not: a check
    with a resource that succeeds also succeeds without one. A resource that
    is not a case changes nothing. With a case, the own-permissions hold
    exactly for the owner, the assigned-permissions exactly for the
    assignee, and every other permission as without a resource. *)
Theorem has_permission_with_resource (u : User.t) (p : Permission) :
  (∀ r : option Resource,
     RBACManager.has_permission (Some u) p r = true →
     RBACManager.has_permission (Some u) p None = true)
  ∧ RBACManager.has_permission (Some u) p (Some ResOther)
    = RBACManager.has_permission (Some u) p None
  ∧ (∀ c : Case.t,
       RBACManager.has_permission (Some u) p (Some (ResCase c))
       = RBACManager.has_permission (Some u) p None
         && (if bool_decide (p ∈ [EDIT_OWN_CASES; DELETE_OWN_CASES;
                                   UPDATE_STATUS_OWN; VIEW_OWN_CASES])
             then bool_decide (Case.created_by c = User.id u)
             else if bool_decide (p ∈ [UPDATE_STATUS_ASSIGNED; VIEW_ASSIGNED_CASES])
             then bool_decide (Case.assigned_to c = Some (User.id u))
             else true)).
Proof.
  assert (∀ c : Case.t,
       RBACManager.has_permission (Some u) p (Some (ResCase c))
       = RBACManager.has_permission (Some u) p None
         && (if bool_decide (p ∈ [EDIT_OWN_CASES; DELETE_OWN_CASES;
                                   UPDATE_STATUS_OWN; VIEW_OWN_CASES])
             then bool_decide (Case.created_by c = User.id u)
             else if bool_decide (p ∈ [UPDATE_STATUS_ASSIGNED; VIEW_ASSIGNED_CASES])
             then bool_decide (Case.assigned_to c = Some (User.id u))
             else true)) as Hcase.
  { intros c. unfold RBACManager.has_permission.
    destruct (User.is_active u); [|done].
    destruct (Role_of_value (User.role u)) as [R|]; [|done].
    unfold RBACManager._check_case_permission. by destruct R, p. }
  assert (RBACManager.has_permission (Some u) p (Some ResOther)
          = RBACManager.has_permission (Some u) p None) as Hother.
  { unfold RBACManager.has_permission.
    destruct (User.is_active u); [|done].
    destruct (Role_of_value (User.role u)) as [R|]; [|done].
    by destruct R, p. }
  split_and!; [|exact Hother|exact Hcase].
  intros [[c|]|]; [|by rewrite Hother|done].
  rewrite Hcase. by intros [? _]%andb_true_iff.
Qed.

(** User 3 may update the status of case 1, which is assigned to user 3,
    and may not edit it, being no owner. *)
Lemma has_permission_with_resource_witness :
  RBACManager.has_permission (Some example_other) UPDATE_STATUS_ASSIGNED
    (Some (ResCase example_open_case)) = true
  ∧ RBACManager.has_permission (Some example_other) EDIT_OWN_CASES
      (Some (ResCase example_open_case)) = false
  ∧ RBACManager.has_permission (Some example_other) UPDATE_STATUS_ASSIGNED None
    = true.
Proof.
  destruct (has_permission_with_resource example_other UPDATE_STATUS_ASSIGNED)
    as (Hmono & _ & _).
  split_and!; [reflexivity | reflexivity |].
  apply (Hmono (Some (ResCase example_open_case))). reflexivity.
Defined.

(** [get_user_permissions] does not look at the active flag: it lists the
    permissions of the role also for a deactivated user, for whom every
    check fails. For an active user the list holds exactly the permissions
    [has_permission] grants without a resource. *)
Theorem get_user_permissions_lists_the_role (u : User.t) :
  (∀ b : bool,
     RBACManager.get_user_permissions (Some (User.set_is_active b u))
     = RBACManager.get_user_permissions (Some u))
  ∧ (User.is_active u = true →
     ∀ p : Permission,
       p ∈ RBACManager.get_user_permissions (Some u) ↔
       RBACManager.has_permission (Some u) p None = true)
  ∧ (User.is_active u = false → User.role u = "admin" →
     length (RBACManager.get_user_permissions (Some u)) = 8%nat
     ∧ ∀ p r, RBACManager.has_permission (Some u) p r = false).
Proof.
  split_and!.
  - done.
  - intros Hact p. unfold RBACManager.get_user_permissions,
      RBACManager.has_permission. rewrite Hact. cbn [negb].
    destruct (Role_of_value (User.role u)) as [R|].
    + case_bool_decide; cbn [negb]; intuition congruence.
    + split; [by intros ?%elem_of_nil | done].
  - intros Hin Hrole. split.
    + unfold RBACManager.get_user_permissions. by rewrite Hrole.
    + intros p r. by apply has_permission_inactive.
Qed.

(** The deactivated administrator of the examples. *)
Lemma get_user_permissions_lists_the_role_witness :
  MANAGE_USERS ∈ RBACManager.get_user_permissions (Some example_inactive_admin)
  ∧ RBACManager.has_permission (Some example_inactive_admin) MANAGE_USERS None
    = false
  ∧ (CREATE_CASE ∈ RBACManager.get_user_permissions (Some example_user) ↔
     RBACManager.has_permission (Some example_user) CREATE_CASE None = true).
Proof.
  destruct (get_user_permissions_lists_the_role example_inactive_admin)
    as (_ & _ & Hinactive).
  destruct (Hinactive eq_refl eq_refl) as [_ Hnone].
  destruct (get_user_permissions_lists_the_role example_user) as (_ & Hactive & _).
  split_and!.
  - simpl. by repeat constructor.
  - apply Hnone.
  - apply (Hactive eq_refl).
Defined.

(** *** More of the authentication guard, and the user list *)

Section guard_errors.
Context `{Library}.

(** The other ways [auth_required] answers for a token that is not
    revoked. An identity [int()] cannot read gives 422; an identity no user
    has gives 401; on an admin-only route an active user who is no
    administrator gets 403; and an exception raised by the guarded function
    itself is answered 422 "Authentication error" with the text of the
    exception. Each of these writes one line to [audit.log], and in the
    first three the guarded function does not run. *)
Theorem auth_required_error_paths (admin_only : bool) (f : User.t → M response)
    (token : Token) (w : World) :
  jti token ∉ blacklisted_tokens w →
  (int_of_str (identity token) = None →
     ∃ (e : string) (w' : World),
       auth.auth_required admin_only f token w
       = (Returned (Error "Authentication error" (Some (ExceptionDetails e)), 422),
          w')
       ∧ audit_file w'
         = audit_file w ++ [mkLogLine None "AUTH_CHECK" "ERROR" "ERROR" e])
  ∧ (∀ n : Z,
       int_of_str (identity token) = Some n →
       users (working w) !! n = None →
       ∃ (line : LogLine) (w' : World),
         auth.auth_required admin_only f token w
         = (Returned (Error "User not found or inactive" None, 401), w')
         ∧ audit_file w' = audit_file w ++ [line]
         ∧ l_action line = "AUTH_CHECK"
         ∧ l_result line = "INACTIVE")
  ∧ (∀ (n : Z) (u : User.t),
       int_of_str (identity token) = Some n →
       users (working w) !! n = Some u →
       User.is_active u = true →
       User.role u ≠ "admin" →
       ∃ w' : World,
         auth.auth_required true f token w
         = (Returned (Error "Admin access required" None, 403), w')
         ∧ audit_file w'
           = audit_file w
             ++ [mkLogLine (Some (User.id u)) "AUTH_CHECK" "ADMIN" "FORBIDDEN"
                   "Admin role required"])
  ∧ (∀ (n : Z) (u : User.t) (e : string) (w1 : World),
       int_of_str (identity token) = Some n →
       users (working w) !! n = Some u →
       User.is_active u = true →
       f u w = (Raised e, w1) →
       ∃ w' : World,
         auth.auth_required false f token w
         = (Returned (Error "Authentication error" (Some (ExceptionDetails e)), 422),
            w')
         ∧ audit_file w'
           = audit_file w1 ++ [mkLogLine None "AUTH_CHECK" "ERROR" "ERROR" e]).
Proof.
  intros Hbl.
  unfold auth.auth_required, User.is_admin, try_except, get_world, raise, print,
    modify_world, mbind, M_bind, mret, M_ret. simpl.
  rewrite bool_decide_eq_false_2 by done.
  split_and!.
  - intros ->. simpl. step_log_action_line w' Hline. eexists _, w'.
    split; [reflexivity | exact Hline].
  - intros n -> ->. simpl. step_log_action_line w' Hline. eexists _, w'.
    split; [reflexivity|]. split; [exact Hline | done].
  - intros n u -> -> -> Hrole. simpl.
    rewrite bool_decide_eq_false_2 by done. simpl.
    step_log_action_line w' Hline. exists w'.
    split; [reflexivity | exact Hline].
  - intros n u e w1 -> -> -> Hraise. simpl. rewrite Hraise.
    step_log_action_line w' Hline. exists w'.
    split; [reflexivity | exact Hline].
Qed.

End guard_errors.

(** A route function that raises behind the guard, and a token whose
    identity is no number: the caller is told 422, authentication error. *)
Lemma auth_required_error_paths_witness :
  let lib := {| int_of_str := λ s, if decide (s = "1") then Some 1 else None;
                from_iso_datetime := λ _, None;
                ilike := λ _ _, false |} in
  let f : User.t → M response := λ _, raise "page is not a number" in
  (@auth.auth_required lib true f (mkToken "t1" "1") (example_world [])).1
  = Returned
      (Error "Authentication error"
         (Some (ExceptionDetails "page is not a number")), 422)
  ∧ ∃ e : string,
      (@auth.auth_required lib true f (mkToken "t2" "two") (example_world [])).1
      = Returned (Error "Authentication error" (Some (ExceptionDetails e)), 422).
Proof.
  split; [reflexivity|].
  destruct (@auth_required_error_paths
              {| int_of_str := λ s, if decide (s = "1") then Some 1 else None;
                 from_iso_datetime := λ _, None;
                 ilike := λ _ _, false |}
              true (λ _, raise "page is not a number")
              (mkToken "t2" "two") (example_world []))
    as (Hbad & _).
  { apply not_elem_of_empty. }
  destruct (Hbad eq_refl) as (e & w' & Heq & _).
  exists e. simpl. by rewrite Heq.
Defined.

Section user_listing.
Local Arguments RBACManager.has_permission : simpl never.

(** [get_users] always answers 200. An actor without ASSIGN_CASES (a user
    or a viewer, or anyone deactivated) is shown the own entry and nothing
    else; an actor with it (an active administrator or manager) is shown
    exactly the active users. *)
Theorem get_users_visibility (current_user : User.t) (w : World) :
  ∃ (l : list UserBrief) (w' : World),
    get_users current_user w = (Returned (l, 200), w')
    ∧ (RBACManager.has_permission (Some current_user) ASSIGN_CASES None = true ↔
       User.is_active current_user = true
       ∧ (User.role current_user = "admin" ∨ User.role current_user = "manager"))
    ∧ (RBACManager.has_permission (Some current_user) ASSIGN_CASES None = false →
       l = [mkUserBrief (User.id current_user) (User.username current_user)
              (User.email current_user)])
    ∧ (RBACManager.has_permission (Some current_user) ASSIGN_CASES None = true →
       ∀ b : UserBrief,
         b ∈ l ↔
         ∃ (id : Z) (u : User.t),
           users (working w) !! id = Some u
           ∧ User.is_active u = true
           ∧ b = mkUserBrief (User.id u) (User.username u) (User.email u)).
Proof.
  assert (RBACManager.has_permission (Some current_user) ASSIGN_CASES None = true ↔
          User.is_active current_user = true
          ∧ (User.role current_user = "admin" ∨ User.role current_user = "manager"))
    as Hassign.
  { unfold RBACManager.has_permission, Role_of_value.
    destruct (User.is_active current_user); simpl; [|intuition congruence].
    repeat case_decide; simpl;
      try match goal with
          | Hn : _ ∉ _ |- _ => exfalso; apply Hn; by repeat constructor
          | Hi : _ ∈ _ |- _ =>
            exfalso; clear -Hi;
            repeat (apply elem_of_cons in Hi as [Hi|Hi]; [discriminate Hi|]);
            by apply elem_of_nil in Hi
          end; intuition congruence. }
  unfold get_users, get_world, mbind, M_bind, mret, M_ret. simpl.
  destruct (RBACManager.has_permission (Some current_user) ASSIGN_CASES None)
    eqn:Hp; step_log_action Hkeep; eexists _, _; (split; [reflexivity|]);
    (split; [exact Hassign|]); split; try done.
  intros _ b. rewrite list_elem_of_fmap. split.
  - intros (u & -> & Hin). apply list_elem_of_filter in Hin as [Hact Hin].
    apply list_elem_of_fmap in Hin as ([id u'] & -> & Hin).
    apply elem_of_map_to_list in Hin. by exists id, u'.
  - intros (id & u & Hu & Hact & ->). exists u. split; [done|].
    apply list_elem_of_filter. split; [done|].
    apply list_elem_of_fmap. exists (id, u). split; [done|].
    by apply elem_of_map_to_list.
Qed.

End user_listing.

(** User 2 sees bob alone. *)
Lemma get_users_visibility_witness :
  ∃ w', get_users example_user (example_world [])
        = (Returned ([mkUserBrief 2 "bob" "bob@example.org"], 200), w').
Proof.
  destruct (get_users_visibility example_user (example_world []))
    as (l & w' & Heq & _ & Hself & _).
  exists w'. rewrite Heq. by rewrite (Hself eq_refl).
Defined.

(** *** The order of the listing *)

Lemma StronglySorted_sublist {A} (R : relation A) (l k : list A) :
  l `sublist_of` k → StronglySorted R k → StronglySorted R l.
Proof.
  induction 1 as [|x l k Hs IH|x l k Hs IH]; intros Hk; [done|..].
  - apply StronglySorted_inv in Hk as [Hk Hall]. constructor; [by apply IH|].
    rewrite Forall_forall in Hall |- *. intros y Hy. apply Hall.
    eapply elem_of_sublist; [|exact Hs]. done.
  - apply StronglySorted_inv in Hk as [Hk _]. by apply IH.
Qed.

Section listing_order.
Context `{Library}.

(** The cases [get_cases] returns come newest first: every item was
    created no earlier than every item after it. *)
Theorem get_cases_newest_first (query_params : gmap string string) (u : User.t)
    (env : Env) (db : Tables) (items : list CaseDict) (pg : Pagination) :
  SimplifiedCaseService.get_cases query_params u env db = (CaseList items pg, 200) →
  StronglySorted (λ a b, d_created_at b ≤ d_created_at a) items.
Proof.
  unfold SimplifiedCaseService.get_cases.
  destruct (query_error env); [by intros [= ]|]. intros [= <- _].
  apply to_dict_sorted. unfold paginate. simpl.
  eapply StronglySorted_sublist; [|apply order_by_created_at_desc_sorted].
  etrans; [apply sublist_take | apply sublist_drop].
Qed.

End listing_order.

(** The administrator lists the example tables: the case of time 20 comes
    before the case of time 10. *)
Lemma get_cases_newest_first_witness :
  ∃ (items : list CaseDict) (pg : Pagination),
    @SimplifiedCaseService.get_cases example_library ∅ example_admin example_env
       example_db = (CaseList items pg, 200)
    ∧ d_created_at <$> items = [20; 10]
    ∧ StronglySorted (λ a b, d_created_at b ≤ d_created_at a) items.
Proof.
  eexists _, _. split; [reflexivity|]. split; [reflexivity|].
  exact (@get_cases_newest_first example_library ∅ example_admin example_env
           example_db _ _ eq_refl).
Defined.
